(** * pjscrape: the suite queue, the scrape protocol and the writers

    A shallow embedding of [pjscrape.js] (the PhantomJS scraping harness)
    and the properties of its crawl scheduling and output pipeline.

    Conventions of the embedding:
    - JavaScript values that reach the writers and formatters are the
      inductive type [JsValue]; numbers are integers ([Z]), strings are
      sequences of 8-bit code units ([string]).
    - [console.log], [phantom.saveToFile] and the [WebPage] object are
      effects: the model threads the logger lines, the file system and the
      trace of [page.open] calls through explicit state.
    - The [visited] object of the runner is a JavaScript object used as a
      set of URL strings: a [gset string]. *)

From Stdlib Require Import ZArith Ascii String List Lia Bool DecimalString.
From stdpp Require Import base gmap strings list sorting.

Set Warnings "-register-all,-clear-no-such-hyp".

(** ** JavaScript values *)

Inductive JsValue : Type :=
| JUndefined
| JNull
| JBool (b : bool)
| JNum (n : Z)
| JStr (s : string)
| JArr (elems : list JsValue)
| JObj (props : list (string * JsValue)).

(** ToBoolean: what [if (v)], [v || w] and [v && w] test. *)
Definition truthy (v : JsValue) : bool :=
  match v with
  | JUndefined | JNull => false
  | JBool b => b
  | JNum n => negb (n =? 0)%Z
  | JStr s => negb (String.eqb s "")
  | JArr _ | JObj _ => true
  end.

(** [isArray(a)]: [Array.isArray(a)]. *)
Definition isArray (a : JsValue) : bool :=
  match a with JArr _ => true | _ => false end.

(** [arrify(a)]: [isArray(a) ? a : a ? [a] : []]. *)
Definition arrify (a : JsValue) : list JsValue :=
  match a with
  | JArr l => l
  | _ => if truthy a then [a] else []
  end.

(** Decimal rendering of a length or a counter, as [String(n)] gives it. *)
Definition nat_to_string (n : nat) : string :=
  NilZero.string_of_uint (Nat.to_uint n).

(** Decimal rendering of an integer number value. *)
Definition Z_to_string (n : Z) : string :=
  NilZero.string_of_int (Z.to_int n).

(** ** Loggers

    [loggers.base]: every level prefixes the message and hands it to
    [log.log]; the model keeps the lines handed to [log.log], oldest
    first. *)

Definition Log := list string.

Definition log_msg (m : string) (lg : Log) : Log := lg ++ ["* " +:+ m].
Definition log_alert (m : string) (lg : Log) : Log := lg ++ ["! " +:+ m].
Definition log_error (m : string) (lg : Log) : Log := lg ++ ["ERROR: " +:+ m].

(** ** The batching writer ([writers.base])

    The writer is followed through the calls in which the formatter
    returns: what [writeBatch] hands to [w.write] is kept as the framing
    flags and the batch, and [flush_text] below gives the text a formatter
    makes of it.  A formatter that throws leaves [writeBatch] before
    [w.write] and before [firstWrite] is cleared; the run is not followed
    past such an exception. *)

Module Writer.

(** One call of [w.write] made by [writeBatch]: which framing the call
    used and the batch it formatted.  [fl_first] is the value of
    [firstWrite] when the batch was written (the text starts with
    [formatter.start] when it is true, with [formatter.delimiter]
    otherwise); [fl_last] is the value of [lastWrite] (the text ends
    with [formatter.end] when it is true). *)
Record Flush := {
  fl_first : bool;
  fl_batch : list JsValue;
  fl_last : bool
}.

(** The closure variables of [writers.base]. *)
Record t := {
  count : nat;
  items : list JsValue;
  batchSize : option nat;
  firstWrite : bool;
  lastWrite : bool;
  written : list Flush
}.

(** State right after [new writers.base(log)] with [config.batchSize]. *)
Definition create (batch : option nat) : t :=
  {| count := 0; items := []; batchSize := batch;
     firstWrite := true; lastWrite := false; written := [] |}.

(** [writeBatch(batch)] *)
Definition writeBatch (batch : list JsValue) (w : t) (lg : Log) : t * Log :=
  let lg' := log_msg ("Writing " +:+ nat_to_string (length batch) +:+ " items") lg in
  ({| count := count w; items := items w; batchSize := batchSize w;
      firstWrite := false; lastWrite := lastWrite w;
      written := written w ++
        [{| fl_first := firstWrite w; fl_batch := batch; fl_last := lastWrite w |}] |},
   lg').

(** [w.add(i)]: the append happens under the guard [if (i)]; the flush
    under [batchSize && items.length > batchSize], where
    [items.splice(0, batchSize)] removes the head of the buffer and
    returns it. *)
Definition add (i : JsValue) (w : t) (lg : Log) : t * Log :=
  if truthy i then
    let i' := arrify i in
    let items' := items w ++ i' in
    let count' := count w + length i' in
    let appended :=
      {| count := count'; items := items'; batchSize := batchSize w;
         firstWrite := firstWrite w; lastWrite := lastWrite w;
         written := written w |} in
    match batchSize w with
    | Some b =>
        if negb (b =? 0) && (b <? length items') then
          writeBatch (take b items')
            {| count := count'; items := drop b items'; batchSize := batchSize w;
               firstWrite := firstWrite w; lastWrite := lastWrite w;
               written := written w |} lg
        else (appended, lg)
    | None => (appended, lg)
    end
  else (w, lg).

(** [w.finish()] *)
Definition finish (w : t) (lg : Log) : t * Log :=
  writeBatch (items w)
    {| count := count w; items := items w; batchSize := batchSize w;
       firstWrite := firstWrite w; lastWrite := true;
       written := written w |} lg.

(** A run of the writer: the [add] calls of the scrape, in order, then
    the one [finish] of the suite manager's completion callback. *)
Fixpoint adds (args : list JsValue) (w : t) (lg : Log) : t * Log :=
  match args with
  | [] => (w, lg)
  | i :: rest => let '(w', lg') := add i w lg in adds rest w' lg'
  end.

Definition run (batch : option nat) (args : list JsValue) : t * Log :=
  let '(w, lg) := adds args (create batch) [] in finish w lg.

End Writer.

(** ** Formatters *)

(** A JavaScript call either returns or throws (here: a [TypeError]). *)
Inductive result (A : Type) : Type :=
| Returns (a : A)
| Throws.
Arguments Returns {A} a.
Arguments Throws {A}.

Definition dquote : ascii := "034"%char.
Definition backslash : ascii := "092"%char.
Definition crlf : string := String "013"%char (String "010"%char EmptyString).

(** [Array.prototype.join]: holes, [undefined] and [null] elements (here
    [None]) are joined as empty strings. *)
Definition or_empty (o : option string) : string :=
  match o with Some s => s | None => EmptyString end.

Definition js_join (sep : string) (l : list (option string)) : string :=
  String.concat sep (map or_empty l).

Definition hex_digit (n : nat) : ascii :=
  match n with
  | 0 => "0" | 1 => "1" | 2 => "2" | 3 => "3" | 4 => "4" | 5 => "5" | 6 => "6"
  | 7 => "7" | 8 => "8" | 9 => "9" | 10 => "a" | 11 => "b" | 12 => "c"
  | 13 => "d" | 14 => "e" | _ => "f"
  end%char.

(** The escape [JSON.stringify] writes for one code unit of a string. *)
Definition json_escape_char (c : ascii) : string :=
  let n := nat_of_ascii c in
  if Ascii.eqb c dquote then String backslash (String dquote EmptyString)
  else if Ascii.eqb c backslash then String backslash (String backslash EmptyString)
  else if n =? 8 then String backslash "b"
  else if n =? 9 then String backslash "t"
  else if n =? 10 then String backslash "n"
  else if n =? 12 then String backslash "f"
  else if n =? 13 then String backslash "r"
  else if n <? 32 then
    String backslash ("u00" +:+ String (hex_digit (n / 16)) (String (hex_digit (n mod 16)) EmptyString))
  else String c EmptyString.

Fixpoint json_escape (s : string) : string :=
  match s with
  | EmptyString => EmptyString
  | String c r => json_escape_char c +:+ json_escape r
  end.

(** [JSON.stringify] of a string value. *)
Definition json_quote (s : string) : string :=
  String dquote (json_escape s +:+ String dquote EmptyString).

(** [JSON.stringify(v)]: [None] is the [undefined] it returns for
    [undefined]; inside an array [undefined] is written [null], inside an
    object the property is left out. *)
Fixpoint stringify (v : JsValue) : option string :=
  match v with
  | JUndefined => None
  | JNull => Some "null"
  | JBool b => Some (if b then "true" else "false")
  | JNum n => Some (Z_to_string n)
  | JStr s => Some (json_quote s)
  | JArr l =>
      Some ("[" +:+ String.concat "," (map (fun e => default "null" (stringify e)) l) +:+ "]")
  | JObj ps =>
      Some ("{" +:+ String.concat ","
              (omap (fun p => (fun t => json_quote (fst p) +:+ ":" +:+ t) <$> stringify (snd p)) ps)
            +:+ "}")
  end.

(** [item.toString()]: throws on [null] and [undefined]; an array joins
    its elements with commas ([null] and [undefined] elements as empty
    strings); a plain object is the fixed text [object Object]. *)
Fixpoint toString (v : JsValue) : result string :=
  match v with
  | JUndefined | JNull => Throws
  | JBool b => Returns (if b then "true" else "false")
  | JNum n => Returns (Z_to_string n)
  | JStr s => Returns s
  | JArr l =>
      Returns (String.concat ","
        (map (fun e => match toString e with Returns t => t | Throws => "" end) l))
  | JObj _ => Returns "[object Object]"
  end.

(** What [new formatters[format]()] gives the writers: the three framing
    tokens and [format(item)], which may keep state between calls (the
    csv formatter's field list) and may throw. *)
Record Formatter := {
  f_state : Type;
  f_init : f_state;
  f_start : string;
  f_delimiter : string;
  f_end : string;
  f_format : f_state -> JsValue -> result (option string) * f_state
}.

(** [formatters.raw] *)
Definition raw : Formatter :=
  {| f_state := unit; f_init := tt;
     f_start := ""; f_delimiter := ""; f_end := "";
     f_format := fun st item =>
       (match toString item with Returns t => Returns (Some t) | Throws => Throws end, st) |}.

(** [formatters.json] *)
Definition json : Formatter :=
  {| f_state := unit; f_init := tt;
     f_start := "["; f_delimiter := ","; f_end := "]";
     f_format := fun st item => (Returns (stringify item), st) |}.

Module Csv.

(** [makeRow(a)]: [a.map(JSON.stringify).join(',')] on the field names. *)
Definition makeRow (a : list string) : string :=
  String.concat "," (map json_quote a).

(** [for (var key in o) keys.push(key)] on the item's own properties. *)
Definition getKeys (o : list (string * JsValue)) : list string := map fst o.

(** [item[field]]: [undefined] when the item has no such property. *)
Fixpoint get_prop (field : string) (o : list (string * JsValue)) : JsValue :=
  match o with
  | [] => JUndefined
  | (k, v) :: rest => if String.eqb k field then v else get_prop field rest
  end.

(** [fields[i] = 'Column ' + (i+1)] for [i] below [item.length]. *)
Definition column_names (n : nat) : list string :=
  map (fun i => "Column " +:+ nat_to_string (i + 1)) (seq 0 n).

(** The [replace] call of the row callback, with the global pattern
    backslash-then-double-quote: scanning left to right, every backslash
    directly followed by a double quote becomes two double quotes. *)
Fixpoint collapse_quotes (s : string) : string :=
  match s with
  | EmptyString => EmptyString
  | String c r =>
      match r with
      | String d r' =>
          if Ascii.eqb c backslash && Ascii.eqb d dquote
          then String dquote (String dquote (collapse_quotes r'))
          else String c (collapse_quotes r)
      | EmptyString => String c EmptyString
      end
  end.

(** The callback of the last [map]: [JSON.stringify(v)] with its
    backslash-quote pairs collapsed; [JSON.stringify(undefined)] is
    [undefined], which has no [replace]. *)
Definition cell (v : JsValue) : result string :=
  match stringify v with
  | Some t => Returns (collapse_quotes t)
  | None => Throws
  end.

(** [item.slice(0, n).concat(item.length < n ? new Array(n - item.length) : [])]:
    [new Array(k)] is [k] holes ([None]), which [concat] keeps. *)
Definition fit (n : nat) (item : list JsValue) : list (option JsValue) :=
  map Some (take n item) ++
  (if length item <? n then replicate (n - length item) None else []).

(** [Array.prototype.map] with [cell]: holes are skipped and stay holes;
    the first throwing call ends the map. *)
Fixpoint cells (row : list (option JsValue)) : result (list (option string)) :=
  match row with
  | [] => Returns []
  | None :: rest =>
      match cells rest with Returns cs => Returns (None :: cs) | Throws => Throws end
  | Some v :: rest =>
      match cell v with
      | Returns c =>
          match cells rest with Returns cs => Returns (Some c :: cs) | Throws => Throws end
      | Throws => Throws
      end
  end.

(** The array a row is made from: the item itself when it is an array,
    otherwise [tmp], with [item[field] || ''] for every field. *)
Definition row_values (fields : list string) (item : JsValue) : list JsValue :=
  match item with
  | JArr l => l
  | JObj ps =>
      map (fun field => let v := get_prop field ps in if truthy v then v else JStr "") fields
  | _ => []
  end.

(** The fields made from the first item when [config.csvFields] is not
    set: synthetic column names for an array, the keys for an object. *)
Definition infer_fields (item : JsValue) : list string :=
  match item with
  | JArr l => column_names (length l)
  | JObj ps => getKeys ps
  | _ => []
  end.

(** [typeof item == 'object'] *)
Definition typeof_object (item : JsValue) : bool :=
  match item with
  | JNull | JArr _ | JObj _ => true
  | _ => false
  end.

(** [f.format(item)].  The state is the closure variable [fields]
    ([None] while it is [undefined]); it is assigned before the row is
    built, so it stays assigned when the row throws.  An item that is not
    an object falls through the [if] and the call returns [undefined]. *)
Definition format (fields : option (list string)) (item : JsValue)
  : result (option string) * option (list string) :=
  if truthy item && typeof_object item then
    let '(out, fs) :=
      match fields with
      | Some fs => (EmptyString, fs)
      | None => let fs := infer_fields item in (makeRow fs +:+ crlf, fs)
      end in
    let item' := row_values fs item in
    (match cells (fit (length fs) item') with
     | Returns cs => Returns (Some (out +:+ js_join "," cs))
     | Throws => Throws
     end, Some fs)
  else (Returns None, fields).

(** [new formatters.csv()] under [config.csvFields]. *)
Definition formatter (csvFields : option (list string)) : Formatter :=
  {| f_state := option (list string); f_init := csvFields;
     f_start := match csvFields with Some fs => makeRow fs +:+ crlf | None => "" end;
     f_delimiter := crlf; f_end := "";
     f_format := format |}.










End Csv.

(** The text [writeBatch] hands to [w.write] for one flush, and the
    formatter state after it. *)
Fixpoint format_all (F : Formatter) (st : f_state F) (batch : list JsValue)
  : result (list (option string)) * f_state F :=
  match batch with
  | [] => (Returns [], st)
  | item :: rest =>
      match f_format F st item with
      | (Returns s, st') =>
          match format_all F st' rest with
          | (Returns ss, st'') => (Returns (s :: ss), st'')
          | (Throws, st'') => (Throws, st'')
          end
      | (Throws, st') => (Throws, st')
      end
  end.

Definition flush_text (F : Formatter) (st : f_state F) (fl : Writer.Flush)
  : result string * f_state F :=
  match format_all F st (Writer.fl_batch fl) with
  | (Returns ss, st') =>
      (Returns ((if Writer.fl_first fl then f_start F else f_delimiter F) +:+
                js_join (f_delimiter F) ss +:+
                (if Writer.fl_last fl then f_end F else "")), st')
  | (Throws, st') => (Throws, st')
  end.

(** ** Statements about the writer *)

(** The shape of the flushes made so far, before [finish]: no flush was
    final, and the flush made while [firstWrite] held, if any, is the
    first one. *)
Definition open_framing (w : Writer.t) : Prop :=
  Writer.lastWrite w = false /\
  map Writer.fl_last (Writer.written w) = replicate (length (Writer.written w)) false /\
  map Writer.fl_first (Writer.written w) =
    (if Writer.firstWrite w then []
     else true :: replicate (length (Writer.written w) - 1) false) /\
  (Writer.firstWrite w = true -> Writer.written w = []).

(** The contract of [add(itemOrList)] in the words of the specification:
    the argument, normalized to a list, is appended to the buffer; the
    cumulative count grows by the appended length; and under a configured
    threshold one batch of the threshold size, taken from the head of the
    buffer, is flushed when and only when the buffer is strictly longer
    than the threshold, the rest staying buffered. *)
Definition add_contract (i : JsValue) (w : Writer.t) (lg : Log) : Prop :=
  let w' := fst (Writer.add i w lg) in
  let buffer := Writer.items w ++ arrify i in
  Writer.count w' = Writer.count w + length (arrify i) /\
  match Writer.batchSize w with
  | Some b =>
      if b <? length buffer then
        Writer.written w' = Writer.written w ++
          [{| Writer.fl_first := Writer.firstWrite w;
              Writer.fl_batch := take b buffer;
              Writer.fl_last := Writer.lastWrite w |}] /\
        Writer.items w' = drop b buffer
      else Writer.written w' = Writer.written w /\ Writer.items w' = buffer
  | None => Writer.written w' = Writer.written w /\ Writer.items w' = buffer
  end.

(** ** The one-file-per-item writer ([writers.itemfile]) *)

Module ItemFile.

(** The mode argument of [phantom.saveToFile]. *)
Inductive mode := Overwrite | Append.

(** One call [phantom.saveToFile(content, path, mode)]; the content is
    [None] when the formatter returned [undefined]. *)
Record Save := {
  sv_content : option string;
  sv_path : string;
  sv_mode : mode
}.

(** The closure variables of [writers.itemfile] (the formatter's own
    state included) and the calls of [phantom.saveToFile] made so far. *)
Record t (F : Formatter) := {
  count : nat;
  fstate : f_state F;
  saves : list Save
}.
Arguments count {F} _.
Arguments fstate {F} _.
Arguments saves {F} _.

Definition create (F : Formatter) : t F :=
  {| count := 0; fstate := f_init F; saves := [] |}.

(** The callback of [forEach]: [filename] is computed from the counter,
    which is incremented, and the file is saved under [config.outFile]. *)
Definition save_item {F} (outFile : string) (w : t F) (i : option string) : t F :=
  let filename := outFile +:+ "-" +:+ nat_to_string (count w) in
  {| count := S (count w); fstate := fstate w;
     saves := saves w ++
       [{| sv_content := i; sv_path := outFile; sv_mode := Overwrite |}] |}.

(** [w.add(items)]: [items.map(formatter.format)] runs to its end before
    [forEach] saves anything, so a throwing formatter leaves [add] with no
    file written. *)
Definition add {F} (outFile : string) (items : JsValue) (w : t F) : result (t F) :=
  if truthy items then
    match format_all F (fstate w) (arrify items) with
    | (Returns texts, st) =>
        Returns (fold_left (save_item outFile) texts
                   {| count := count w; fstate := st; saves := saves w |})
    | (Throws, _) => Throws
    end
  else Returns w.

(** [w.finish()] *)
Definition finish {F} (w : t F) : t F := w.

End ItemFile.

(** ** The suite runner ([runner]) *)

Module Runner.

Set Implicit Arguments.

(** [config.timeoutInterval] and [config.timeoutLimit], in milliseconds. *)
Record Config := {
  timeoutInterval : Z;
  timeoutLimit : Z
}.

(** The defaults of [config]. *)
Definition default_config : Config :=
  {| timeoutInterval := 300; timeoutLimit := 3000 |}.

Section Model.

(** What a [WebPage] holds once [page.open] has reported success: the
    rendered page, against which [page.evaluate] runs the suite's
    functions. *)
Variable Page : Type.

(** The part of [s.opts] the runner reads.  [ready p k] is the value of
    [page.evaluate(opts.ready)] at its [k]-th evaluation on the page
    ([k = 0] right after the load, [k >= 1] in the [k]-th call of the
    interval callback); [moreUrls] is [None] when no hook is configured,
    and the hook gives [None] for a falsy result and the array of URLs
    otherwise; [maxDepth] is [None] when the option is not set.  The
    script injections and [preScrape] act on the page only and are left
    out. *)
Record Opts := {
  ready : Page -> nat -> bool;
  scrapable : Page -> bool;
  scrapers : list (Page -> JsValue);
  moreUrls : option (Page -> option (list string));
  maxDepth : option nat
}.

(** [ScraperSuite] *)
Record Suite := {
  title : string;
  urls : list string;
  opts : Opts;
  depth : nat
}.

(** [new ScraperSuite(title, urls, opts)]: the constructor ends with
    [s.depth = 0]. *)
Definition new_suite (t : string) (us : list string) (o : Opts) : Suite :=
  {| title := t; urls := us; opts := o; depth := 0 |}.

(** The variables of the [runner] closure and of [SuiteManager], with the
    effects the run has had: the [page.open] calls made (the URL and
    whether the status was success), the [scrapePage] calls made (the URL
    and the evaluation of [ready] that let it run, 0 for the immediate
    one), the suites whose [run] was called, and whether [phantom.exit]
    was reached. *)
Record State := {
  queue : list Suite;
  visited : gset string;
  writer : Writer.t;
  log : Log;
  opens : list (string * bool);
  scraped : list (string * nat);
  started : list Suite;
  exited : bool
}.

(** The web: what the [n]-th [page.open] of the run (counting from 0)
    gives for a URL, [None] when the status is not success. *)
Variable web : nat -> string -> option Page.

Variable config : Config.

(** The interval callback of [scrape], from its [tick]-th call on, with
    the value [elapsed] has then: [Some k] when the [k]-th call is the
    one that scrapes, [None] when none of the next [patience] calls
    does. *)
Fixpoint poll (patience : nat) (rdy : nat -> bool) (tick : nat) (elapsed : Z) : option nat :=
  match patience with
  | 0 => None
  | S n =>
      if rdy tick || (timeoutLimit config <? elapsed)%Z then Some tick
      else poll n rdy (S tick) (elapsed + timeoutInterval config)%Z
  end.


(** A number of calls of the interval callback after which [elapsed] has
    passed the limit, when the interval is positive. *)
Definition enough_patience : nat :=
  Z.to_nat (Z.max 0 (timeoutLimit config) / timeoutInterval config) + 2.

(** When [scrapePage] runs for a loaded page: at once when [ready] holds
    right after the load, otherwise in the interval callback, which
    starts with [elapsed = 0]. *)
Definition wait_ready (patience : nat) (rdy : nat -> bool) : option nat :=
  if rdy 0 then Some 0 else poll patience rdy 1 0%Z.

(** [scrapePage(page)]: each scraper's result goes to [writer.add] (as
    for the writer, the calls are followed as long as no formatter
    throws). *)
Definition scrapePage (s : Suite) (page : Page) (w : Writer.t) (lg : Log) : Writer.t * Log :=
  if scrapable (opts s) page then
    fold_left (fun acc scraper => Writer.add (scraper page) (fst acc) (snd acc))
              (scrapers (opts s)) (w, lg)
  else (w, lg).

(** [!s.opts.maxDepth || s.depth < s.opts.maxDepth] *)
Definition depth_allows (s : Suite) : bool :=
  match maxDepth (opts s) with
  | None => true
  | Some m => (m =? 0) || (depth s <? m)
  end.

(** The callback given to [moreUrls.filter]. *)
Definition unvisited (vis : gset string) (url : string) : bool :=
  negb (bool_decide (url ∈ vis)).

(** [complete(page)] up to its call of [runNext]; [page] is [None] for
    [complete(false)] and [i] is the counter of sub-suites of the running
    suite.  The array returned by [moreUrls.filter] is not assigned:
    [moreUrls] itself is tested and handed to the new suite. *)
Definition complete (s : Suite) (page : option Page) (i : nat) (st : State) : nat * State :=
  match page, moreUrls (opts s) with
  | Some p, Some hook =>
      match hook p with
      | Some more =>
          if depth_allows s then
            let filtered := filter (fun url => unvisited (visited st) url = true) more in
            if negb (length more =? 0) then
              let lg := log_msg ("Found " +:+ nat_to_string (length more) +:+
                                 " additional urls to scrape") (log st) in
              let ss := new_suite (title s +:+ "-sub" +:+ nat_to_string i) more (opts s) in
              let ss := {| title := title ss; urls := urls ss; opts := opts ss;
                           depth := depth s + 1 |} in
              (S i, {| queue := queue st ++ [ss]; visited := visited st;
                       writer := writer st; log := lg; opens := opens st;
                       scraped := scraped st; started := started st;
                       exited := exited st |})
            else (i, st)
          else (i, st)
      | None => (i, st)
      end
  | _, _ => (i, st)
  end.

(** The state [scrape] hands to [complete(false)] when the status is not
    success: the error is logged and the open is on record; the writer,
    the queue and [visited] are as before. *)
Definition load_failed (url : string) (st : State) : State :=
  {| queue := queue st; visited := visited st; writer := writer st;
     log := log_error ("Page did not load: " +:+ url) (log st);
     opens := opens st ++ [(url, false)];
     scraped := scraped st; started := started st; exited := exited st |}.

(** [s.scrape(url, scrapePage, complete)], to the point where [complete]
    calls [runNext]; [None] when the interval callback is still waiting
    after [patience] calls. *)
Definition scrape (patience : nat) (s : Suite) (url : string) (i : nat) (st : State)
  : option (nat * State) :=
  match web (length (opens st)) url with
  | Some page =>
      let vis := {[ url ]} ∪ visited st in
      let lg := log_msg ("Scraping " +:+ url) (log st) in
      match wait_ready patience (ready (opts s) page) with
      | Some k =>
          let '(w, lg') := scrapePage s page (writer st) lg in
          Some (complete s (Some page) i
                  {| queue := queue st; visited := vis; writer := w; log := lg';
                     opens := opens st ++ [(url, true)];
                     scraped := scraped st ++ [(url, k)];
                     started := started st; exited := exited st |})
      | None => None
      end
  | None => Some (complete s None i (load_failed url st))
  end.

(** [runNext] of [run]: the URLs from [runCounter] on, one after the
    other, then [s.complete()], which logs and hands over to the suite
    manager. *)
Fixpoint run_urls (patience : nat) (s : Suite) (us : list string) (i : nat) (st : State)
  : option State :=
  match us with
  | [] =>
      Some {| queue := queue st; visited := visited st; writer := writer st;
              log := log_msg (title s +:+ " complete") (log st);
              opens := opens st; scraped := scraped st; started := started st;
              exited := exited st |}
  | url :: rest =>
      match scrape patience s url i st with
      | Some (i', st') => run_urls patience s rest i' st'
      | None => None
      end
  end.

(** [suite.run()], for the suite [SuiteManager.runNext] has just shifted
    off the queue. *)
Definition run_suite (patience : nat) (s : Suite) (st : State) : option State :=
  run_urls patience s (urls s) 0
    {| queue := queue st; visited := visited st; writer := writer st;
       log := log_msg (title s +:+ " starting") (log st);
       opens := opens st; scraped := scraped st; started := started st ++ [s];
       exited := exited st |}.

(** The completion callback set in [init]: [writer.finish()], the final
    message, [phantom.exit()]. *)
Definition finalize (st : State) : State :=
  let '(w, lg) := Writer.finish (writer st) (log st) in
  {| queue := queue st; visited := visited st; writer := w;
     log := log_msg ("Saved " +:+ nat_to_string (Writer.count w) +:+ " items") lg;
     opens := opens st; scraped := scraped st; started := started st;
     exited := true |}.

(** One turn of [SuiteManager.runNext] with a suite on the queue. *)
Definition step (patience : nat) (st : State) : option State :=
  match queue st with
  | [] => None
  | s :: q =>
      run_suite patience s
        {| queue := q; visited := visited st; writer := writer st; log := log st;
           opens := opens st; scraped := scraped st; started := started st;
           exited := exited st |}
  end.

(** [SuiteManager.runNext] until the queue is empty; [None] when more
    than [fuel] suites would have to run or a page never gets ready. *)
Fixpoint run_queue (fuel patience : nat) (st : State) : option State :=
  match queue st with
  | [] => Some (finalize st)
  | _ :: _ =>
      match fuel with
      | 0 => None
      | S n =>
          match step patience st with
          | Some st' => run_queue n patience st'
          | None => None
          end
      end
  end.

(** The states the run passes through between suites. *)
Inductive reaches (patience : nat) : State -> State -> Prop :=
| reaches_refl st : reaches patience st st
| reaches_step st st' st'' :
    step patience st = Some st' -> reaches patience st' st'' -> reaches patience st st''.

End Model.

(** A suite as configured with [pjs.addSuite]: [suite.title],
    [suite.url || suite.urls] as an array, and the options. *)
Record SuiteConfig (Page : Type) := {
  cfg_title : option string;
  cfg_urls : list string;
  cfg_opts : Opts Page
}.

(** [suite.title || "Suite " + i] for the suites from index [i] on. *)
Fixpoint make_suites {Page} (i : nat) (suites : list (SuiteConfig Page)) : list (Suite Page) :=
  match suites with
  | [] => []
  | c :: rest =>
      new_suite
        (match cfg_title c with
         | Some t => if String.eqb t EmptyString then "Suite " +:+ nat_to_string i else t
         | None => "Suite " +:+ nat_to_string i
         end)
        (cfg_urls c) (cfg_opts c)
      :: make_suites (S i) rest
  end.

(** [init()] up to its call of [SuiteManager.runNext], for a valid
    configuration: a fresh writer, nothing visited, all configured suites
    on the queue. *)
Definition init {Page} (batchSize : option nat) (suites : list (SuiteConfig Page)) : State Page :=
  {| queue := make_suites 0 suites; visited := ∅; writer := Writer.create batchSize;
     log := []; opens := []; scraped := []; started := []; exited := false |}.

Unset Implicit Arguments.

End Runner.

(** ** Statements about runs *)

(** The URLs whose [page.open] reported success, as a set. *)
Definition opened_ok (os : list (string * bool)) : gset string :=
  list_to_set (omap (fun o : string * bool => if snd o then Some (fst o) else None) os).

(** The depth bound a suite is under: none when [maxDepth] is not set or
    is 0. *)
Definition depth_ok {Page} (s : Runner.Suite Page) : Prop :=
  match Runner.maxDepth (Runner.opts s) with
  | Some (S m) => Runner.depth s <= S m
  | _ => True
  end.

(** [s] with its [maxDepth] option replaced. *)
Definition with_maxDepth {Page} (m : option nat) (s : Runner.Suite Page) : Runner.Suite Page :=
  {| Runner.title := Runner.title s; Runner.urls := Runner.urls s;
     Runner.opts :=
       {| Runner.ready := Runner.ready (Runner.opts s);
          Runner.scrapable := Runner.scrapable (Runner.opts s);
          Runner.scrapers := Runner.scrapers (Runner.opts s);
          Runner.moreUrls := Runner.moreUrls (Runner.opts s);
          Runner.maxDepth := m |};
     Runner.depth := Runner.depth s |}.

(** A suite made by the link discovery of [s]. *)
Definition child_of {Page} (s ss : Runner.Suite Page) : Prop :=
  Runner.depth ss = Runner.depth s + 1 /\
  Runner.opts ss = Runner.opts s /\
  Runner.depth_allows s = true /\
  Runner.urls ss <> [].

(** The depth bound in the words of the specification: no suite deeper
    than its configured max depth, whatever the configured value. *)
Definition depth_within_max {Page} (s : Runner.Suite Page) : Prop :=
  match Runner.maxDepth (Runner.opts s) with
  | Some m => Runner.depth s <= m
  | None => True
  end.

(** What a run has opened, from the suites it has started: the opens are
    the entries of the suites' URL lists, in order and one open per
    entry; [visited] holds the URLs whose open succeeded; so the opens
    are free of repetition exactly when the URL lists are. *)
Definition opens_as_listed {Page} (st : Runner.State Page) : Prop :=
  map fst (Runner.opens st) = concat (map (@Runner.urls Page) (Runner.started st)) /\
  Runner.visited st = opened_ok (Runner.opens st) /\
  (NoDup (map fst (Runner.opens st)) <->
   NoDup (concat (map (@Runner.urls Page) (Runner.started st)))).

(** A suite with a [maxDepth] of 0 rewritten to the suite that has the
    option unset; other suites are left as they are. *)
Definition unset_zero {Page} (s : Runner.Suite Page) : Runner.Suite Page :=
  match Runner.maxDepth (Runner.opts s) with
  | Some 0 => with_maxDepth None s
  | _ => s
  end.

(** The same run state with every suite, queued or started, rewritten by
    [unset_zero]. *)
Definition unset_zero_state {Page} (st : Runner.State Page) : Runner.State Page :=
  {| Runner.queue := map unset_zero (Runner.queue st);
     Runner.visited := Runner.visited st;
     Runner.writer := Runner.writer st;
     Runner.log := Runner.log st;
     Runner.opens := Runner.opens st;
     Runner.scraped := Runner.scraped st;
     Runner.started := map unset_zero (Runner.started st);
     Runner.exited := Runner.exited st |}.

(** ** Example configurations *)

(** A suite with one URL whose page loads but is never ready. *)
Definition never_ready_suite : Runner.Suite unit :=
  Runner.new_suite "Suite 0" ["u"]
    {| Runner.ready := fun _ _ => false; Runner.scrapable := fun _ => true;
       Runner.scrapers := [fun _ => JStr "item"]; Runner.moreUrls := None;
       Runner.maxDepth := None |}.

(** A web on which every URL loads, and a run that has not started. *)
Definition always_loads : nat -> string -> option unit := fun _ _ => Some tt.

Definition fresh_run : Runner.State unit := Runner.init None [].

(** Options with no hook and a page that is ready at once. *)
Definition plain_opts {Page} : Runner.Opts Page :=
  {| Runner.ready := fun _ _ => true; Runner.scrapable := fun _ => true;
     Runner.scrapers := []; Runner.moreUrls := None; Runner.maxDepth := None |}.

(** One configured suite that lists the URL [a] twice. *)
Definition twice_listed : list (Runner.SuiteConfig unit) :=
  [{| Runner.cfg_title := None; Runner.cfg_urls := ["a"; "a"];
      Runner.cfg_opts := plain_opts |}].

(** A web whose pages are their own URLs, and a hook that finds the
    links [a], [b] and [c] on the page [a]. *)
Definition url_pages : nat -> string -> option string := fun _ url => Some url.

Definition links_of_a (p : string) : option (list string) :=
  if String.eqb p "a" then Some ["a"; "b"; "c"] else None.

Definition crawl_from_a (m : option nat) : list (Runner.SuiteConfig string) :=
  [{| Runner.cfg_title := None; Runner.cfg_urls := ["a"];
      Runner.cfg_opts :=
        {| Runner.ready := fun _ _ => true; Runner.scrapable := fun _ => true;
           Runner.scrapers := []; Runner.moreUrls := Some links_of_a;
           Runner.maxDepth := m |} |}].

(** Scenario B: the URL [bad] does not load, every other URL does; one
    suite lists [bad] and then [good], with one scraper that returns the
    page's URL as its one item. *)
Definition all_but_bad : nat -> string -> option string :=
  fun _ url => if String.eqb url "bad" then None else Some url.

Definition bad_then_good : list (Runner.SuiteConfig string) :=
  [{| Runner.cfg_title := None; Runner.cfg_urls := ["bad"; "good"];
      Runner.cfg_opts :=
        {| Runner.ready := fun _ _ => true; Runner.scrapable := fun _ => true;
           Runner.scrapers := [fun p => JStr p]; Runner.moreUrls := None;
           Runner.maxDepth := None |} |}].

(** ** Statements about the items a writer is given *)

(** All the items a sequence of [add] calls appends: each argument as
    [arrify] normalizes it (a falsy argument gives none). *)
Definition added_items (args : list JsValue) : list JsValue := concat (map arrify args).

(** The items of all the batches handed to [w.write] so far, oldest
    first. *)
Definition flushed (w : Writer.t) : list JsValue :=
  concat (map Writer.fl_batch (Writer.written w)).

(** The flushes [add] makes, under a threshold [b]: each carries exactly
    [b] items and leaves something in the buffer. *)
Definition batches_of (b : nat) (w : Writer.t) : Prop :=
  Forall (fun f => length (Writer.fl_batch f) = b) (Writer.written w) /\
  (Writer.written w <> [] -> Writer.items w <> []).

(** ** Files and the file writer ([writers.file]) *)

Module Files.

(** [phantom.saveToFile(content, path, mode)] on the files of the script
    directory, a map from paths to contents: mode [w] replaces the file,
    mode [a] appends to it (to the empty file when there is none). *)
Definition saveToFile (content path : string) (m : ItemFile.mode)
    (fs : gmap string string) : gmap string string :=
  match m with
  | ItemFile.Overwrite => <[path := content]> fs
  | ItemFile.Append => <[path := default EmptyString (fs !! path) +:+ content]> fs
  end.

(** The [w.write] of [writers.file], called by [writeBatch] once per
    flush with the text of the flush: [phantom.saveToFile(s,
    config.outFile, 'a')].  The formatter state runs through the
    flushes; a formatter that throws ends the writes. *)
Fixpoint writes (F : Formatter) (outFile : string) (st : f_state F)
    (fls : list Writer.Flush) (fs : gmap string string) : result (gmap string string) :=
  match fls with
  | [] => Returns fs
  | fl :: rest =>
      match flush_text F st fl with
      | (Returns text, st') => writes F outFile st' rest (saveToFile text outFile ItemFile.Append fs)
      | (Throws, _) => Throws
      end
  end.

(** The files after a run of [writers.file]: the constructor empties
    [config.outFile] ([phantom.saveToFile('', config.outFile, 'w')]),
    then every flush of the base writer appends its text. *)
Definition file_writer_output (F : Formatter) (outFile : string) (w : Writer.t)
    (fs : gmap string string) : result (gmap string string) :=
  writes F outFile (f_init F) (Writer.written w)
    (saveToFile EmptyString outFile ItemFile.Overwrite fs).

End Files.

(** The text the json formatter makes of one flush. *)
Definition json_flush_text (fl : Writer.Flush) : string :=
  (if Writer.fl_first fl then "[" else ",") +:+
  js_join "," (map stringify (Writer.fl_batch fl)) +:+
  (if Writer.fl_last fl then "]" else EmptyString).

(** ** Statements about csv rows *)


(** The field list in force while an item is formatted: the one already
    assigned, or the one made from the item. *)
Definition fields_for (fields : option (list string)) (item : JsValue) : list string :=
  match fields with
  | Some fs => fs
  | None => Csv.infer_fields item
  end.


(** Items the csv formatter makes a row of. *)
Definition is_row_item (item : JsValue) : bool :=
  match item with
  | JArr _ | JObj _ => true
  | _ => false
  end.

(** ** Objects: [extend] and [pjs.config] *)

Module Obj.

(** [v !== void 0] is [negb (is_undefined v)]. *)
Definition is_undefined (v : JsValue) : bool :=
  match v with JUndefined => true | _ => false end.

(** [o[k] = v] on the properties of an object, kept in the order in
    which they were created: an existing property keeps its place. *)
Fixpoint set_prop (k : string) (v : JsValue) (o : list (string * JsValue))
  : list (string * JsValue) :=
  match o with
  | [] => [(k, v)]
  | (k', v') :: rest =>
      if String.eqb k' k then (k, v) :: rest else (k', v') :: set_prop k v rest
  end.

(** The body of the [forEach] of [extend] for one source:
    [for (var prop in source) if (source[prop] !== void 0) obj[prop] = source[prop]]. *)
Definition extend_from (source obj : list (string * JsValue)) : list (string * JsValue) :=
  fold_left
    (fun acc prop =>
       let v := Csv.get_prop prop source in
       if is_undefined v then acc else set_prop prop v acc)
    (Csv.getKeys source) obj.

(** [extend(obj, source, ...)] *)
Definition extend (obj : list (string * JsValue)) (sources : list (list (string * JsValue)))
  : list (string * JsValue) :=
  fold_left (fun acc source => extend_from source acc) sources obj.

(** The enumerable properties [for ... in] finds on a value [extend] is
    given by [pjs.config]: those of an object, the indices of an
    array. *)
Definition props_of (v : JsValue) : list (string * JsValue) :=
  match v with
  | JObj ps => ps
  | JArr l => imap (fun i e => (nat_to_string i, e)) l
  | _ => []
  end.

(** The property name a truthy primitive key stands for in
    [config[key]]. *)
Definition property_key (key : JsValue) : string :=
  match key with
  | JStr s => s
  | JNum n => Z_to_string n
  | JBool b => if b then "true" else "false"
  | _ => EmptyString
  end.

(** [pjs.config(key, val)], as it leaves the [config] object: nothing
    for a falsy key (the call then returns [config]); [extend(config,
    key)] for an object key; [config[key] = val] otherwise, under the
    guard [if (val)]. *)
Definition config (key val : JsValue) (cfg : list (string * JsValue))
  : list (string * JsValue) :=
  if negb (truthy key) then cfg
  else if Csv.typeof_object key then extend cfg [props_of key]
  else if truthy val then set_prop (property_key key) val cfg
  else cfg.

(** What [extend(obj, sources...)] is to hold under the name [k]: the
    value of the last source that has a value other than [undefined]
    there, the value [obj] had when there is none. *)
Definition last_defined (k : string) (obj : list (string * JsValue))
    (sources : list (list (string * JsValue))) : JsValue :=
  fold_left
    (fun acc source =>
       let v := Csv.get_prop k source in if is_undefined v then acc else v)
    sources (Csv.get_prop k obj).

End Obj.

(** ** Statements about what a run records *)

(** The lines [log.error] writes. *)
Definition is_error_line (line : string) : bool := String.prefix "ERROR: " line.

Definition count_errors (lg : Log) : nat := length (List.filter is_error_line lg).

(** The URLs whose open succeeded, in the order of the opens, and the
    opens that failed. *)
Definition loaded_urls (os : list (string * bool)) : list string :=
  omap (fun o : string * bool => if snd o then Some (fst o) else None) os.

Definition failed_opens (os : list (string * bool)) : list (string * bool) :=
  List.filter (fun o : string * bool => negb (snd o)) os.

(** The count of a writer that has not finished is the number of items
    written plus the number of items buffered. *)
Definition writer_balanced (w : Writer.t) : Prop :=
  Writer.count w = length (flushed w) + length (Writer.items w).

(** The books of a run between suites: one [scrapePage] call per
    successful open, in order; one error line per failed open; a
    balanced writer. *)
Definition run_accounts {Page} (st : Runner.State Page) : Prop :=
  map fst (Runner.scraped st) = loaded_urls (Runner.opens st) /\
  count_errors (Runner.log st) = length (failed_opens (Runner.opens st)) /\
  writer_balanced (Runner.writer st).

(** ** Statements about the order of suites *)

(** [a] is no deeper than [b]. *)
Definition by_depth {Page} (a b : Runner.Suite Page) : Prop :=
  Runner.depth a <= Runner.depth b.

(** Breadth-level order: the suites started so far, followed by the
    queue, are in order of depth, and the queue spans at most two
    levels. *)
Definition bfs_order {Page} (st : Runner.State Page) : Prop :=
  StronglySorted by_depth (Runner.started st ++ Runner.queue st) /\
  forall x y, x ∈ Runner.queue st -> y ∈ Runner.queue st ->
              Runner.depth x <= Runner.depth y + 1.

(** A suite that keeps finding links: it lists a URL, has a hook that
    returns a non-empty array on every page, and no effective
    [maxDepth]. *)
Definition ever_linking {Page} (s : Runner.Suite Page) : Prop :=
  Runner.urls s <> [] /\
  (Runner.maxDepth (Runner.opts s) = None \/ Runner.maxDepth (Runner.opts s) = Some 0) /\
  exists hook, Runner.moreUrls (Runner.opts s) = Some hook /\
               forall p, exists more, hook p = Some more /\ more <> [].

(** One suite on the URL [a], whose hook finds the link [a] on every
    page, with no [maxDepth]. *)
Definition self_linking : list (Runner.SuiteConfig string) :=
  [{| Runner.cfg_title := None; Runner.cfg_urls := ["a"];
      Runner.cfg_opts :=
        {| Runner.ready := fun _ _ => true; Runner.scrapable := fun _ => true;
           Runner.scrapers := []; Runner.moreUrls := Some (fun _ => Some ["a"]);
           Runner.maxDepth := None |} |}].

(** ** Statements about [visited] *)

(** A run state with its [visited] set replaced. *)
Definition set_visited {Page} (v : gset string) (st : Runner.State Page) : Runner.State Page :=
  {| Runner.queue := Runner.queue st; Runner.visited := v;
     Runner.writer := Runner.writer st; Runner.log := Runner.log st;
     Runner.opens := Runner.opens st; Runner.scraped := Runner.scraped st;
     Runner.started := Runner.started st; Runner.exited := Runner.exited st |}.

(** A run state without what it holds in [visited]. *)
Definition forget_visited {Page} (st : Runner.State Page) : Runner.State Page :=
  set_visited ∅ st.

(** A suite on the URL [a] whose pages are never scrapable; its hook
    finds [b] on every page. *)
Definition unscrapable_suite : Runner.Suite string :=
  Runner.new_suite "Suite 0" ["a"]
    {| Runner.ready := fun _ _ => true; Runner.scrapable := fun _ => false;
       Runner.scrapers := [fun p => JStr p]; Runner.moreUrls := Some (fun _ => Some ["b"]);
       Runner.maxDepth := None |}.

(** * Properties *)

(** ** The batching writer *)

Section WriterFacts.
Import Writer.

(** What one flush looks like from the state it is made in. *)
Lemma writeBatch_written batch w lg :
  written (fst (writeBatch batch w lg)) =
  written w ++ [{| fl_first := firstWrite w; fl_batch := batch; fl_last := lastWrite w |}].
Proof. reflexivity. Qed.

Lemma add_falsy i w lg : truthy i = false -> add i w lg = (w, lg).
Proof. intros H. unfold add. now rewrite H. Qed.

(** [add] never touches [lastWrite] or [batchSize]. *)
Lemma add_lastWrite i w lg : lastWrite (fst (add i w lg)) = lastWrite w.
Proof.
  unfold add. destruct (truthy i); [|reflexivity].
  destruct (batchSize w) as [b|]; [|reflexivity].
  destruct (negb (b =? 0) && (b <? _)); reflexivity.
Qed.

Lemma create_open_framing batch : open_framing (create batch).
Proof. repeat split. Qed.

Lemma replicate_snoc {A} (x : A) n : replicate n x ++ [x] = replicate (S n) x.
Proof. induction n as [|n IH]; simpl; [reflexivity|]. now rewrite IH. Qed.

Lemma writeBatch_open_framing batch w lg :
  open_framing w -> open_framing (fst (writeBatch batch w lg)).
Proof.
  intros (Hl & Hlast & Hfirst & Hempty).
  unfold open_framing. simpl.
  rewrite !map_app, !length_app. simpl.
  split; [exact Hl|]. split; [|split; [|discriminate]].
  - rewrite Hlast, Hl. replace (length (written w) + 1) with (S (length (written w))) by lia.
    apply replicate_snoc.
  - rewrite Hfirst. destruct (firstWrite w) eqn:E.
    + rewrite (Hempty eq_refl). reflexivity.
    + destruct (written w) as [|f tl] eqn:Ew; [discriminate Hfirst|].
      simpl. f_equal. rewrite Nat.sub_0_r.
      replace (length tl + 1 - 0) with (S (length tl)) by lia.
      apply replicate_snoc.
Qed.

Lemma add_open_framing i w lg : open_framing w -> open_framing (fst (add i w lg)).
Proof.
  intros H. unfold add. destruct (truthy i); [|exact H].
  destruct (batchSize w) as [b|].
  - destruct (negb (b =? 0) && (b <? _)).
    + apply writeBatch_open_framing. exact H.
    + exact H.
  - exact H.
Qed.

Lemma adds_open_framing args : forall w lg,
  open_framing w -> open_framing (fst (adds args w lg)).
Proof.
  induction args as [|i rest IH]; intros w lg H; simpl; [exact H|].
  destruct (add i w lg) as [w' lg'] eqn:E.
  apply IH. change w' with (fst (w', lg')). rewrite <- E. now apply add_open_framing.
Qed.

End WriterFacts.

Section WriterClaims.
Import Writer.


End WriterClaims.

Section AddClaims.
Import Writer.

(** The buffer of a writer with threshold 1 after [add([1,2,3])]: one
    batch was flushed and two items stay buffered. *)
Example add_leaves_overfull_buffer :
  items (fst (add (JArr [JNum 1; JNum 2; JNum 3]) (create (Some 1)) [])) = [JNum 2; JNum 3].
Proof. reflexivity. Qed.

(** C4, as stated, fails: with threshold 1 and two items still buffered,
    [add(null)] flushes nothing although the buffer is strictly longer
    than the threshold; and under a threshold of 0 a non-empty buffer is
    never flushed. *)
Lemma add_contract_counterexample :
  ~ add_contract JNull
      (fst (add (JArr [JNum 1; JNum 2; JNum 3]) (create (Some 1)) [])) [] /\
  ~ add_contract (JNum 7) (create (Some 0)) [].
Proof.
  split; intros [_ H]; vm_compute in H; destruct H as [H _]; discriminate H.
Qed.

(** C4, amended. For every call [add(i)] with a truthy argument on a
    writer whose threshold is unset or non-zero, the argument normalized
    to a list is appended to the buffer, the cumulative count grows by
    the appended length whether or not a flush happens, and under a
    threshold exactly one batch of the threshold size is flushed from the
    head of the buffer when and only when the buffer is strictly longer
    than the threshold, the rest staying buffered. *)
Theorem add_truthy_contract (i : JsValue) (w : t) (lg : Log) :
  truthy i = true -> batchSize w <> Some 0 -> add_contract i w lg.
Proof.
  intros Hi Hb. unfold add_contract, add. rewrite Hi.
  destruct (batchSize w) as [b|] eqn:Eb.
  - assert ((b =? 0) = false) as ->.
    { apply Nat.eqb_neq. intros ->. now apply Hb. }
    simpl negb. rewrite andb_true_l.
    destruct (b <? length (items w ++ arrify i)); simpl; auto.
  - simpl. auto.
Qed.

Lemma add_truthy_contract_witness :
  truthy (JArr [JNum 4; JNum 5]) = true /\
  batchSize (create (Some 1)) <> Some 0 /\
  add_contract (JArr [JNum 4; JNum 5]) (create (Some 1)) [].
Proof.
  split; [reflexivity|]. split; [discriminate|].
  apply add_truthy_contract; [reflexivity|discriminate].
Defined.

(** A threshold of 0 is read as no threshold: the items are buffered and
    nothing is flushed. *)
Lemma add_zero_threshold i w lg :
  truthy i = true -> batchSize w = Some 0 ->
  written (fst (add i w lg)) = written w /\
  items (fst (add i w lg)) = items w ++ arrify i /\
  count (fst (add i w lg)) = count w + length (arrify i).
Proof. intros Hi Hb. unfold add. rewrite Hi, Hb. simpl. auto. Qed.

End AddClaims.

(** ** The CSV formatter *)

Section StringFacts.

Lemma append_cons c (s t : string) : String c s +:+ t = String c (s +:+ t).
Proof. reflexivity. Qed.

Lemma append_nil_r (s : string) : s +:+ EmptyString = s.
Proof. induction s as [|c s IH]; [reflexivity|]. now rewrite append_cons, IH. Qed.

Lemma append_assoc (s t u : string) : (s +:+ t) +:+ u = s +:+ (t +:+ u).
Proof. induction s as [|c s IH]; [reflexivity|]. now rewrite !append_cons, IH. Qed.

End StringFacts.

Section CsvFacts.
Import Csv.

Lemma fit_length n (item : list JsValue) : length (fit n item) = n.
Proof.
  unfold fit. rewrite length_app, length_map, length_take.
  destruct (length item <? n) eqn:E.
  - apply Nat.ltb_lt in E. rewrite length_replicate. lia.
  - apply Nat.ltb_ge in E. simpl. lia.
Qed.

Lemma fit_pad n (item : list JsValue) :
  fit n item = map Some (take n item) ++ replicate (n - length item) None.
Proof.
  unfold fit. destruct (length item <? n) eqn:E; [reflexivity|].
  apply Nat.ltb_ge in E. now replace (n - length item) with 0 by lia.
Qed.

Lemma cells_length row : forall cs, cells row = Returns cs -> length cs = length row.
Proof.
  induction row as [|[v|] row IH]; simpl; intros cs H.
  - now inversion H.
  - destruct (cell v); [|discriminate]. destruct (cells row) as [cs'|]; [|discriminate].
    inversion H; subst. simpl. f_equal. now apply IH.
  - destruct (cells row) as [cs'|]; [|discriminate].
    inversion H; subst. simpl. f_equal. now apply IH.
Qed.





(** The values of an object's row are never [undefined]: a missing or
    falsy property is written as the empty string. *)
Lemma row_values_object fs ps :
  length (row_values fs (JObj ps)) = length fs /\
  Forall (fun v => v <> JUndefined) (row_values fs (JObj ps)).
Proof.
  simpl. split; [apply length_map|].
  apply Forall_forall. intros v Hin. apply list_elem_of_In, in_map_iff in Hin.
  destruct Hin as (f & <- & _).
  destruct (get_prop f ps); simpl; try discriminate; try destruct b; try discriminate.
  - destruct (negb (n =? 0)%Z); discriminate.
  - destruct (negb (s =? "")%string); discriminate.
Qed.

End CsvFacts.

Section CsvRoundTrip.
Import Csv.







End CsvRoundTrip.

Section CsvRows.
Import Csv.

Lemma concat_cons2 sep (x y : string) l :
  String.concat sep (x :: y :: l) = x +:+ sep +:+ String.concat sep (y :: l).
Proof. reflexivity. Qed.






End CsvRows.

Section CsvClaims.
Import Csv.









End CsvClaims.

(** ** The one-file-per-item writer *)

Section ItemFileFacts.
Import ItemFile.
Context {F : Formatter}.

Lemma save_items_trace outFile (texts : list (option string)) : forall w : t F,
  saves (fold_left (save_item outFile) texts w) =
    saves w ++ map (fun i => {| sv_content := i; sv_path := outFile; sv_mode := Overwrite |}) texts /\
  count (fold_left (save_item outFile) texts w) = count w + length texts.
Proof.
  induction texts as [|i texts IH]; intros w; simpl.
  - rewrite app_nil_r. split; [reflexivity|lia].
  - destruct (IH (save_item outFile w i)) as [Hs Hc]. rewrite Hs, Hc. simpl.
    rewrite <- app_assoc. split; [reflexivity|lia].
Qed.

Lemma format_all_length (st : f_state F) (batch : list JsValue) : forall texts st',
  format_all F st batch = (Returns texts, st') -> length texts = length batch.
Proof.
  revert st. induction batch as [|item batch IH]; intros st texts st' H; simpl in H.
  - now inversion H.
  - destruct (f_format F st item) as [[s|] st1]; [|discriminate].
    destruct (format_all F st1 batch) as [[ss|] st2] eqn:E; [|discriminate].
    inversion H; subst. simpl. f_equal. eapply IH, E.
Qed.

(** X18. Every call of [add] on the one-file-per-item writer that
    returns has made one [phantom.saveToFile] call per item, each in
    overwrite mode and each under [config.outFile] itself, and has
    raised the counter by the number of items. *)
Lemma itemfile_add_saves outFile (items : JsValue) (w w' : t F) :
  truthy items = true ->
  add outFile items w = Returns w' ->
  exists news,
    saves w' = saves w ++ news /\
    length news = length (arrify items) /\
    Forall (fun s => sv_path s = outFile /\ sv_mode s = Overwrite) news /\
    count w' = count w + length (arrify items).
Proof.
  intros Ht H. unfold add in H. rewrite Ht in H.
  destruct (format_all F (fstate w) (arrify items)) as [[texts|] st] eqn:E; [|discriminate].
  inversion H; subst; clear H.
  pose proof (format_all_length _ _ _ _ E) as Hlen.
  destruct (save_items_trace outFile texts
              {| count := count w; fstate := st; saves := saves w |}) as [Hs Hc].
  eexists. split; [exact Hs|]. rewrite length_map. split; [exact Hlen|]. split.
  - apply Forall_forall. intros s Hin. apply list_elem_of_In, in_map_iff in Hin.
    destruct Hin as (i & <- & _). split; reflexivity.
  - rewrite Hc, Hlen. reflexivity.
Qed.

End ItemFileFacts.

(** C9 (the code departs from it). [add(['a', 'b'])] on a fresh
    one-file-per-item writer with the raw formatter and output file
    [out] saves both items, the counter ends at 2, and both saves
    overwrite the one file [out]: the items do not get an output unit
    each. *)
Theorem itemfile_add_same_path :
  ItemFile.add "out" (JArr [JStr "a"; JStr "b"]) (ItemFile.create raw) =
    Returns {| ItemFile.count := 2; ItemFile.fstate := (tt : f_state raw);
               ItemFile.saves :=
                 [{| ItemFile.sv_content := Some "a"; ItemFile.sv_path := "out";
                     ItemFile.sv_mode := ItemFile.Overwrite |};
                  {| ItemFile.sv_content := Some "b"; ItemFile.sv_path := "out";
                     ItemFile.sv_mode := ItemFile.Overwrite |}] |} /\
  ~ NoDup (map ItemFile.sv_path
             (match ItemFile.add "out" (JArr [JStr "a"; JStr "b"]) (ItemFile.create raw) with
              | Returns w => ItemFile.saves w
              | Throws => []
              end)).
Proof.
  split; [reflexivity|].
  vm_compute. intros H. apply NoDup_cons in H as [Hin _]. apply Hin. left.
Qed.

(** ** The scrape protocol *)

Section PollFacts.
Import Runner.
Variable config : Config.


(** With a positive interval the poll ends: [elapsed] passes the limit. *)
Lemma poll_ends (rdy : nat -> bool) patience : forall tick elapsed,
  (0 < timeoutInterval config)%Z ->
  (timeoutLimit config - elapsed < (Z.of_nat patience - 1) * timeoutInterval config)%Z ->
  1 <= patience ->
  exists k, poll config patience rdy tick elapsed = Some k.
Proof.
  induction patience as [|n IH]; intros tick elapsed Hpos Hlim Hp; [lia|].
  simpl. destruct (rdy tick || (timeoutLimit config <? elapsed)%Z) eqn:E.
  - now exists tick.
  - apply orb_false_iff in E as [_ El]. apply Z.ltb_ge in El.
    apply IH; [exact Hpos| |]; nia.
Qed.



End PollFacts.

Section ScrapeFacts.
Import Runner.
Variable Page : Type.
Variable web : nat -> string -> option Page.
Variable config : Config.

(** [complete] only ever appends one suite to the queue and one line to
    the log. *)
Lemma complete_frame (s : Suite Page) page i st :
  let st' := snd (complete s page i st) in
  visited st' = visited st /\ writer st' = writer st /\ opens st' = opens st /\
  scraped st' = scraped st /\ started st' = started st /\ exited st' = exited st.
Proof.
  unfold complete.
  destruct page as [p|]; [|now repeat split].
  destruct (moreUrls (opts s)) as [hook|]; [|now repeat split].
  destruct (hook p) as [more|]; [|now repeat split].
  destruct (depth_allows s); [|now repeat split].
  destruct (negb (length more =? 0)); now repeat split.
Qed.




Lemma wait_ready_ends (rdy : nat -> bool) patience :
  (0 < timeoutInterval config)%Z ->
  1 <= patience ->
  (timeoutLimit config < (Z.of_nat patience - 1) * timeoutInterval config)%Z ->
  exists k, wait_ready config patience rdy = Some k.
Proof.
  intros Hpos Hp Hlim. unfold wait_ready. destruct (rdy 0); [now exists 0|].
  apply poll_ends; [exact Hpos|lia|exact Hp].
Qed.

Lemma enough_patience_enough :
  (0 < timeoutInterval config)%Z ->
  1 <= enough_patience config /\
  (timeoutLimit config < (Z.of_nat (enough_patience config) - 1) * timeoutInterval config)%Z.
Proof.
  intros Hpos. unfold enough_patience. split; [lia|].
  set (l := Z.max 0 (timeoutLimit config)).
  assert (0 <= l / timeoutInterval config)%Z by (apply Z.div_pos; lia).
  pose proof (Z.mul_succ_div_gt l (timeoutInterval config) Hpos).
  rewrite Nat2Z.inj_add, Z2Nat.id by assumption. lia.
Qed.

End ScrapeFacts.

Section ScrapeClaims.
Import Runner.
Variable Page : Type.
Variable web : nat -> string -> option Page.
Variable config : Config.


End ScrapeClaims.


(** Scenario D: with the defaults (300 ms, 3000 ms) a page that is never
    ready is scraped once, by the twelfth call of the interval callback,
    the first one that finds [elapsed] (then 3300) above the limit. *)
Example never_ready_scraped_at_tick_12 :
  (fun r => Runner.scraped (snd r)) <$>
    Runner.scrape always_loads Runner.default_config 20 never_ready_suite "u" 0 fresh_run
  = Some [("u", 12)].
Proof. vm_compute. reflexivity. Qed.

(** ** The suite queue *)

Section RunFacts.
Import Runner.
Variable Page : Type.
Variable web : nat -> string -> option Page.
Variable config : Config.

Lemma opened_ok_snoc os (url : string) (ok : bool) :
  opened_ok (os ++ [(url, ok)]) = opened_ok os ∪ (if ok then {[ url ]} else ∅).
Proof.
  unfold opened_ok. rewrite omap_app, list_to_set_app_L.
  destruct ok; simpl.
  - now rewrite (right_id_L ∅ (∪)).
  - reflexivity.
Qed.

(** [complete] leaves the queue alone or appends one suite, whose depth
    is one more than the running suite's and whose options are the
    running suite's. *)
Lemma complete_queue (s : Suite Page) page i st :
  let r := complete s page i st in
  (fst r = i /\ queue (snd r) = queue st) \/
  (exists ss, fst r = S i /\ queue (snd r) = queue st ++ [ss] /\
              depth ss = depth s + 1 /\ opts ss = opts s /\
              depth_allows s = true /\ urls ss <> [] /\
              exists p hook, page = Some p /\ moreUrls (opts s) = Some hook /\
                             hook p = Some (urls ss)).
Proof.
  unfold complete.
  destruct page as [p|]; [|now left].
  destruct (moreUrls (opts s)) as [hook|] eqn:Eh; [|now left].
  destruct (hook p) as [more|] eqn:Em; [|now left].
  destruct (depth_allows s) eqn:Ed; [|now left].
  destruct (negb (length more =? 0)) eqn:El; [|now left].
  right. eexists. cbn [fst snd queue].
  split; [reflexivity|]. split; [reflexivity|]. cbn [depth opts urls new_suite].
  split; [reflexivity|]. split; [reflexivity|]. split; [reflexivity|]. split.
  - intros Hnil. subst more. discriminate El.
  - exists p, hook. now repeat split.
Qed.

(** What one [scrape] does to the traces. *)
Lemma scrape_frame patience (s : Suite Page) url i st r :
  scrape web config patience s url i st = Some r ->
  (exists ok, opens (snd r) = opens st ++ [(url, ok)] /\
              visited (snd r) = visited st ∪ (if ok then {[ url ]} else ∅)) /\
  started (snd r) = started st /\ exited (snd r) = exited st.
Proof.
  unfold scrape. intros H.
  destruct (web (length (opens st)) url) as [page|].
  - destruct (wait_ready config patience (ready (opts s) page)) as [k|]; [|discriminate].
    destruct (scrapePage s page (writer st) (log_msg ("Scraping " +:+ url) (log st)))
      as [w lg'].
    apply (inj Some) in H. rewrite <- H.
    match goal with |- context [complete s (Some page) i ?x] =>
      destruct (complete_frame Page s (Some page) i x) as (Hv & _ & Ho & _ & Hs & He) end.
    rewrite Hv, Ho, Hs, He. simpl. split; [|auto].
    exists true. split; [reflexivity|set_solver].
  - apply (inj Some) in H. rewrite <- H.
    match goal with |- context [complete s None i ?x] =>
      destruct (complete_frame Page s None i x) as (Hv & _ & Ho & _ & Hs & He) end.
    rewrite Hv, Ho, Hs, He. simpl. split; [|auto].
    exists false. split; [reflexivity|set_solver].
Qed.

(** Over the URL loop of a suite: every URL of the list is opened, in
    order and once per entry, and [visited] gains the ones that
    loaded. *)
Lemma run_urls_frame patience (s : Suite Page) us : forall i st st',
  run_urls web config patience s us i st = Some st' ->
  (exists os, opens st' = opens st ++ os /\ map fst os = us /\
              visited st' = visited st ∪ opened_ok os) /\
  started st' = started st /\ exited st' = exited st.
Proof.
  induction us as [|url rest IH]; intros i st st' H; simpl in H.
  - apply (inj Some) in H. subst st'. simpl. split; [|auto].
    exists []. rewrite app_nil_r. repeat split. unfold opened_ok. simpl. set_solver.
  - destruct (scrape web config patience s url i st) as [[i1 st1]|] eqn:E; [|discriminate].
    destruct (scrape_frame _ _ _ _ _ _ E) as ((ok & Ho & Hv) & Hs & He). simpl in *.
    destruct (IH _ _ _ H) as ((os & Ho' & Hm & Hv') & Hs' & He').
    split; [|split; congruence].
    exists ((url, ok) :: os). rewrite Ho', Ho, <- app_assoc. simpl.
    split; [reflexivity|]. split; [now rewrite Hm|].
    rewrite Hv', Hv. change ((url, ok) :: os) with ([(url, ok)] ++ os).
    unfold opened_ok. rewrite omap_app, list_to_set_app_L.
    destruct ok; simpl; set_solver.
Qed.

End RunFacts.

Section QueueFacts.
Import Runner.
Variable Page : Type.
Variable web : nat -> string -> option Page.
Variable config : Config.

Lemma opened_ok_app os1 os2 : opened_ok (os1 ++ os2) = opened_ok os1 ∪ opened_ok os2.
Proof. unfold opened_ok. now rewrite omap_app, list_to_set_app_L. Qed.

Lemma child_depth_ok (s ss : Suite Page) : child_of s ss -> depth_ok ss.
Proof.
  intros (Hd & Ho & Ha & _). unfold depth_ok, depth_allows in *. rewrite Ho.
  destruct (maxDepth (opts s)) as [[|m]|]; try exact I.
  simpl in Ha. apply Nat.ltb_lt in Ha. lia.
Qed.

Lemma scrape_queue patience (s : Suite Page) url i st r :
  scrape web config patience s url i st = Some r ->
  exists extra, queue (snd r) = queue st ++ extra /\ Forall (child_of s) extra.
Proof.
  unfold scrape. intros H.
  assert (Hc : forall page x, queue x = queue st ->
            exists extra, queue (snd (complete s page i x)) = queue st ++ extra /\
                          Forall (child_of s) extra).
  { intros page x Hq. destruct (complete_queue Page s page i x) as [[_ Hsame]|Hnew].
    - exists []. rewrite Hsame, Hq, app_nil_r. split; [reflexivity|constructor].
    - destruct Hnew as (ss & _ & Hqueue & Hd & Ho & Ha & Hu & _).
      exists [ss]. rewrite Hqueue, Hq. split; [reflexivity|].
      repeat constructor; assumption. }
  destruct (web (length (opens st)) url) as [page|].
  - destruct (wait_ready config patience (ready (opts s) page)) as [k|]; [|discriminate].
    destruct (scrapePage s page (writer st) (log_msg ("Scraping " +:+ url) (log st)))
      as [w lg'].
    apply (inj Some) in H. rewrite <- H. now apply Hc.
  - apply (inj Some) in H. rewrite <- H. now apply Hc.
Qed.

Lemma run_urls_queue patience (s : Suite Page) us : forall i st st',
  run_urls web config patience s us i st = Some st' ->
  exists extra, queue st' = queue st ++ extra /\ Forall (child_of s) extra.
Proof.
  induction us as [|url rest IH]; intros i st st' H; simpl in H.
  - apply (inj Some) in H. subst st'. exists []. simpl.
    rewrite app_nil_r. split; [reflexivity|constructor].
  - destruct (scrape web config patience s url i st) as [[i1 st1]|] eqn:E; [|discriminate].
    destruct (scrape_queue _ _ _ _ _ _ E) as (e1 & Hq1 & Hc1). simpl in Hq1.
    destruct (IH _ _ _ H) as (e2 & Hq2 & Hc2).
    exists (e1 ++ e2). rewrite Hq2, Hq1, app_assoc. split; [reflexivity|].
    now apply Forall_app.
Qed.

(** One suite run: the head of the queue is started, its URLs are
    opened in order, the suites it discovers join the tail. *)
Lemma step_frame patience (st st' : State Page) :
  step web config patience st = Some st' ->
  exists s q extra os,
    queue st = s :: q /\ queue st' = q ++ extra /\ Forall (child_of s) extra /\
    started st' = started st ++ [s] /\
    opens st' = opens st ++ os /\ map fst os = urls s /\
    visited st' = visited st ∪ opened_ok os /\
    exited st' = exited st.
Proof.
  unfold step, run_suite. intros H.
  destruct (queue st) as [|s q] eqn:Eq; [discriminate|].
  destruct (run_urls_frame _ _ _ _ _ _ _ _ _ H) as ((os & Ho & Hm & Hv) & Hs & He).
  destruct (run_urls_queue _ _ _ _ _ _ H) as (extra & Hq & Hc).
  exists s, q, extra, os. simpl in *. now repeat split.
Qed.

(** Between suites, all along a run: the opens made are the URL lists of
    the suites started, in order; [visited] has gained the URLs that
    loaded; and the depth bound holds for every suite started or
    queued. *)
Lemma reaches_frame patience (st st' : State Page) :
  reaches web config patience st st' ->
  Forall depth_ok (queue st) ->
  exists ran os,
    started st' = started st ++ ran /\
    opens st' = opens st ++ os /\
    map fst os = concat (map (@urls Page) ran) /\
    visited st' = visited st ∪ opened_ok os /\
    Forall depth_ok (ran ++ queue st') /\
    exited st' = exited st.
Proof.
  induction 1 as [st|st st1 st2 Hstep _ IH]; intros Hok.
  - exists [], []. rewrite !app_nil_r. simpl. repeat split; [|exact Hok].
    unfold opened_ok. simpl. now rewrite (right_id_L ∅ (∪)).
  - destruct (step_frame _ _ _ Hstep)
      as (s & q & extra & os1 & Hq & Hq1 & Hc & Hs & Ho & Hm & Hv & He).
    rewrite Hq in Hok. apply Forall_cons in Hok as [Hs_ok Hq_ok].
    assert (Hok1 : Forall depth_ok (queue st1)).
    { rewrite Hq1. apply Forall_app. split; [exact Hq_ok|].
      eapply Forall_impl; [exact Hc|]. intros ss. apply child_depth_ok. }
    destruct (IH Hok1) as (ran & os2 & Hs2 & Ho2 & Hm2 & Hv2 & Hd2 & He2).
    exists (s :: ran), (os1 ++ os2).
    rewrite Hs2, Hs, Ho2, Ho, Hv2, Hv, He2, He, <- !app_assoc. simpl.
    rewrite map_app, Hm, Hm2, opened_ok_app, (assoc_L (∪)).
    repeat split. now constructor.
Qed.

(** A finished run is a run of suites that emptied the queue, followed
    by the completion callback. *)
Lemma run_queue_reaches fuel patience : forall (st st' : State Page),
  run_queue web config fuel patience st = Some st' ->
  exists st1, reaches web config patience st st1 /\ queue st1 = [] /\ st' = finalize st1.
Proof.
  induction fuel as [|n IH]; intros st st' H; simpl in H.
  - destruct (queue st) eqn:Eq; [|discriminate].
    apply (inj Some) in H. exists st. split; [constructor|auto].
  - destruct (queue st) eqn:Eq.
    + apply (inj Some) in H. exists st. split; [constructor|auto].
    + destruct (step web config patience st) as [st1|] eqn:Es; [|discriminate].
      destruct (IH _ _ H) as (st2 & Hr & Hq & Hf).
      exists st2. split; [|auto]. econstructor; eassumption.
Qed.

Lemma finalize_frame (st : State Page) :
  queue (finalize st) = queue st /\ visited (finalize st) = visited st /\
  opens (finalize st) = opens st /\ scraped (finalize st) = scraped st /\
  started (finalize st) = started st /\ exited (finalize st) = true.
Proof. unfold finalize. destruct (Writer.finish _ _). now repeat split. Qed.

Lemma make_suites_depth_ok (suites : list (SuiteConfig Page)) : forall i,
  Forall depth_ok (make_suites i suites).
Proof.
  induction suites as [|c rest IH]; intros i; simpl; constructor; [|apply IH].
  unfold depth_ok, new_suite. simpl. destruct (maxDepth (cfg_opts c)) as [[|m]|]; try exact I.
  lia.
Qed.

End QueueFacts.

Section QueueClaims.
Import Runner.
Variable Page : Type.
Variable web : nat -> string -> option Page.
Variable config : Config.

Lemma reaches_from_init batch (suites : list (SuiteConfig Page)) patience st' :
  reaches web config patience (init batch suites) st' ->
  opens_as_listed st' /\ Forall depth_ok (started st' ++ queue st').
Proof.
  intros Hr.
  destruct (reaches_frame Page web config patience _ _ Hr)
    as (ran & os & Hs & Ho & Hm & Hv & Hd & _).
  { apply make_suites_depth_ok. }
  simpl in Hs, Ho, Hv. subst ran os.
  assert (Hvis : visited st' = opened_ok (opens st')).
  { rewrite Hv. now rewrite (left_id_L ∅ (∪)). }
  split; [|exact Hd].
  unfold opens_as_listed. rewrite Hm. split; [reflexivity|]. split; [exact Hvis|reflexivity].
Qed.

Lemma run_queue_from_init batch (suites : list (SuiteConfig Page)) fuel patience st' :
  run_queue web config fuel patience (init batch suites) = Some st' ->
  opens_as_listed st' /\ Forall depth_ok (started st').
Proof.
  intros H.
  destruct (run_queue_reaches Page web config fuel patience _ _ H) as (st1 & Hr & Hq & ->).
  apply reaches_from_init in Hr as [(Hm & Hv & Hn) Hd].
  destruct (finalize_frame Page st1) as (_ & Hv' & Ho' & _ & Hs' & _).
  unfold opens_as_listed. rewrite Ho', Hv', Hs'.
  rewrite Hq, app_nil_r in Hd. split; [|exact Hd].
  split; [exact Hm|]. split; [exact Hv|exact Hn].
Qed.

(** C1, amended. All along a run and at its end, the URLs passed to
    [page.open] are exactly the entries of the URL lists of the suites
    run, in queue order, each entry opened once; no open consults
    [visited], which records the URLs whose open succeeded; hence no URL
    is opened more than once exactly when no URL is listed twice in the
    suites run. *)
Theorem opens_follow_suite_lists batch (suites : list (SuiteConfig Page)) patience :
  (forall st', reaches web config patience (init batch suites) st' -> opens_as_listed st') /\
  (forall fuel st',
     run_queue web config fuel patience (init batch suites) = Some st' ->
     opens_as_listed st').
Proof.
  split.
  - intros st' Hr. now apply reaches_from_init in Hr.
  - intros fuel st' H. now apply run_queue_from_init in H.
Qed.

(** C3, amended. A suite made by link discovery has its parent's depth
    plus 1 and its parent's options, and is made only when the parent's
    [maxDepth] is unset, is 0, or is above the parent's depth; so, all
    along a run and at its end, no suite started or queued is deeper
    than a non-zero configured [maxDepth]. *)
Theorem depth_bounded_by_nonzero_max :
  (forall (s : Suite Page) page i st ss,
     queue (snd (complete s page i st)) = queue st ++ [ss] ->
     depth ss = depth s + 1 /\ opts ss = opts s /\
     match maxDepth (opts s) with
     | Some (S m) => depth s < S m
     | _ => True
     end) /\
  (forall batch (suites : list (SuiteConfig Page)) patience st',
     reaches web config patience (init batch suites) st' ->
     Forall depth_ok (started st' ++ queue st')) /\
  (forall batch (suites : list (SuiteConfig Page)) fuel patience st',
     run_queue web config fuel patience (init batch suites) = Some st' ->
     Forall depth_ok (started st')).
Proof.
  split; [|split].
  - intros s page i st ss Hq.
    destruct (complete_queue Page s page i st) as [[_ Hsame]|Hnew].
    + rewrite Hsame in Hq. apply (f_equal (@length _)) in Hq.
      rewrite length_app in Hq. simpl in Hq. lia.
    + destruct Hnew as (ss' & _ & Hq' & Hd & Ho & Ha & _).
      rewrite Hq' in Hq. apply app_inj_tail in Hq as [_ ->].
      split; [exact Hd|]. split; [exact Ho|].
      unfold depth_allows in Ha. destruct (maxDepth (opts s)) as [[|m]|]; try exact I.
      simpl in Ha. now apply Nat.ltb_lt in Ha.
  - intros batch suites patience st' Hr. now apply reaches_from_init in Hr.
  - intros batch suites fuel patience st' H. now apply run_queue_from_init in H.
Qed.

End QueueClaims.
(** C1, as stated, fails: a suite configured with the URL [a] listed
    twice opens [a] twice; nothing looks into [visited] before an
    open. *)
Lemma opens_unique_counterexample :
  exists st',
    Runner.run_queue always_loads Runner.default_config 3 3 (Runner.init None twice_listed)
      = Some st' /\
    map fst (Runner.opens st') = ["a"; "a"] /\
    ~ NoDup (map fst (Runner.opens st')).
Proof.
  eexists. split; [vm_compute; reflexivity|]. split; [vm_compute; reflexivity|].
  vm_compute. intros H. apply NoDup_cons in H as [Hin _]. apply Hin. left.
Qed.

Lemma opens_follow_suite_lists_witness :
  exists st',
    Runner.run_queue url_pages Runner.default_config 6 3
      (Runner.init None (crawl_from_a (Some 2))) = Some st' /\
    opens_as_listed st'.
Proof.
  destruct (Runner.run_queue url_pages Runner.default_config 6 3
              (Runner.init None (crawl_from_a (Some 2)))) as [st'|] eqn:E;
    [|vm_compute in E; discriminate E].
  exists st'. split; [reflexivity|].
  exact (proj2 (opens_follow_suite_lists string url_pages Runner.default_config
                  None (crawl_from_a (Some 2)) 3) 6 st' E).
Defined.

(** C2 (the code departs from it). The suite [Suite 0] scrapes the page
    [a], whose hook returns the three URLs [a], [b] and [c]; [a] is in
    [visited] by then, and the sub-suite put on the queue still lists
    all three URLs. *)
Theorem discovered_urls_not_filtered :
  exists st',
    Runner.step url_pages Runner.default_config 3
      (Runner.init None (crawl_from_a (Some 1))) = Some st' /\
    "a" ∈ Runner.visited st' /\
    map (@Runner.urls string) (Runner.queue st') = [["a"; "b"; "c"]].
Proof.
  eexists. split; [vm_compute; reflexivity|]. split; [|vm_compute; reflexivity].
  refine (proj1 (bool_decide_spec _) _). vm_compute. exact I.
Qed.

(** C3, as stated, fails: under [maxDepth = 0] the suite at depth 0,
    which is not strictly below the max depth, still gets a sub-suite,
    of depth 1, above the configured max depth. *)
Lemma depth_claim_counterexample :
  exists st',
    Runner.step url_pages Runner.default_config 3
      (Runner.init None (crawl_from_a (Some 0))) = Some st' /\
    map (fun s => (Runner.depth s, Runner.maxDepth (Runner.opts s))) (Runner.queue st')
      = [(1, Some 0)] /\
    ~ Forall depth_within_max (Runner.queue st').
Proof.
  eexists. split; [vm_compute; reflexivity|]. split; [vm_compute; reflexivity|].
  intros H. apply Forall_cons in H as [H _].
  vm_compute in H. apply (Nat.nle_succ_0 0 H).
Qed.

Lemma depth_bounded_by_nonzero_max_witness :
  exists st',
    Runner.run_queue url_pages Runner.default_config 6 3
      (Runner.init None (crawl_from_a (Some 2))) = Some st' /\
    Forall depth_ok (Runner.started st').
Proof.
  destruct (Runner.run_queue url_pages Runner.default_config 6 3
              (Runner.init None (crawl_from_a (Some 2)))) as [st'|] eqn:E;
    [|vm_compute in E; discriminate E].
  exists st'. split; [reflexivity|].
  exact (proj2 (proj2 (depth_bounded_by_nonzero_max string url_pages
                         Runner.default_config))
           None (crawl_from_a (Some 2)) 6 3 st' E).
Defined.

(** ** Page-load failures *)

Section LoadFailure.
Import Runner.
Variable Page : Type.
Variable web : nat -> string -> option Page.
Variable config : Config.

Lemma complete_no_hook (s : Suite Page) page i st :
  moreUrls (opts s) = None -> complete s page i st = (i, st).
Proof. intros H. unfold complete. rewrite H. now destruct page. Qed.

Lemma scrape_failed patience (s : Suite Page) url i st :
  web (length (opens st)) url = None ->
  scrape web config patience s url i st = Some (i, load_failed url st).
Proof. intros H. unfold scrape. now rewrite H. Qed.

(** Without a link-discovery hook and with a positive poll interval,
    the URL loop of a suite always comes to its end, whichever URLs
    load, and leaves the queue as it was. *)
Lemma run_urls_no_hook (s : Suite Page) us :
  moreUrls (opts s) = None ->
  (0 < timeoutInterval config)%Z ->
  forall i st, exists st',
    run_urls web config (enough_patience config) s us i st = Some st' /\
    queue st' = queue st.
Proof.
  intros Hh Hpos. induction us as [|url rest IH]; intros i st; simpl.
  - eexists. split; reflexivity.
  - unfold scrape. destruct (web (length (opens st)) url) as [page|].
    + destruct (enough_patience_enough config Hpos) as [Hp Hlim].
      destruct (wait_ready_ends config (ready (opts s) page) _ Hpos Hp Hlim) as [k ->].
      destruct (scrapePage s page (writer st) (log_msg ("Scraping " +:+ url) (log st)))
        as [w lg'].
      rewrite complete_no_hook by exact Hh.
      match goal with |- context [run_urls _ _ _ _ _ i ?x] => destruct (IH i x) as (st' & -> & Hq) end.
      exists st'. split; [reflexivity|exact Hq].
    + rewrite complete_no_hook by exact Hh.
      destruct (IH i (load_failed url st)) as (st' & -> & Hq).
      exists st'. split; [reflexivity|exact Hq].
Qed.

Lemma run_queue_no_hook : forall (st : State Page),
  (0 < timeoutInterval config)%Z ->
  Forall (fun s => moreUrls (opts s) = None) (queue st) ->
  exists st',
    run_queue web config (length (queue st)) (enough_patience config) st = Some st' /\
    exited st' = true /\
    started st' = started st ++ queue st.
Proof.
  intros st Hpos. remember (length (queue st)) as n eqn:Hn.
  revert st Hn. induction n as [|n IH]; intros st Hn Hall.
  - destruct (queue st) eqn:Eq; [|discriminate]. simpl. rewrite Eq.
    eexists. split; [reflexivity|].
    destruct (finalize_frame Page st) as (_ & _ & _ & _ & Hs & He).
    rewrite Hs, app_nil_r. auto.
  - destruct (queue st) as [|s q] eqn:Eq; [discriminate|].
    apply Forall_cons in Hall as [Hs Hq].
    simpl. rewrite Eq. unfold step. rewrite Eq. unfold run_suite.
    match goal with |- context [run_urls _ _ _ s (urls s) 0 ?x] =>
      destruct (run_urls_no_hook s (urls s) Hs Hpos 0 x) as (st1 & E1 & Hq1);
      destruct (run_urls_frame Page web config _ _ _ _ _ _ E1) as (_ & Hst1 & _)
    end.
    rewrite E1. simpl in Hq1, Hst1.
    destruct (IH st1) as (st' & E' & He' & Hs').
    + rewrite Hq1. simpl in Hn. lia.
    + now rewrite Hq1.
    + exists st'. split; [exact E'|]. split; [exact He'|].
      now rewrite Hs', Hst1, Hq1, <- app_assoc.
Qed.

Lemma make_suites_facts (suites : list (SuiteConfig Page)) : forall i,
  length (make_suites i suites) = length suites /\
  map (@urls Page) (make_suites i suites) = map (@cfg_urls Page) suites /\
  (Forall (fun c => moreUrls (cfg_opts c) = None) suites ->
   Forall (fun s => moreUrls (opts s) = None) (make_suites i suites)).
Proof.
  induction suites as [|c rest IH]; intros i; simpl.
  - repeat split. constructor.
  - destruct (IH (S i)) as (Hl & Hm & Hf). rewrite Hl, Hm. repeat split.
    intros Hall. apply Forall_cons in Hall as [Hc Hrest]. constructor; [exact Hc|auto].
Qed.

(** C8. When [page.open] reports a status other than success for a URL,
    [scrape] logs the error and calls [complete(false)]: the writer, the
    queue, the sub-suite counter and [visited] are untouched, so the URL
    adds no item and starts no link discovery, and the URL loop goes on
    with the next URL from that state.  And failures do not stop a run:
    with a positive poll interval and no link-discovery hook, whichever
    URLs fail to load, the run opens every listed URL once, reaches
    [writer.finish()] and exits. *)
Theorem load_failure_recovered :
  (forall patience (s : Suite Page) url rest i st,
     web (length (opens st)) url = None ->
     scrape web config patience s url i st = Some (i, load_failed url st) /\
     log (load_failed url st) = log st ++ ["ERROR: Page did not load: " +:+ url] /\
     writer (load_failed url st) = writer st /\
     queue (load_failed url st) = queue st /\
     visited (load_failed url st) = visited st /\
     run_urls web config patience s (url :: rest) i st =
       run_urls web config patience s rest i (load_failed url st)) /\
  (forall batch (suites : list (SuiteConfig Page)),
     (0 < timeoutInterval config)%Z ->
     Forall (fun c => moreUrls (cfg_opts c) = None) suites ->
     exists st',
       run_queue web config (length suites) (enough_patience config) (init batch suites)
         = Some st' /\
       exited st' = true /\
       map fst (opens st') = concat (map (@cfg_urls Page) suites)).
Proof.
  split.
  - intros patience s url rest i st Hweb.
    pose proof (scrape_failed patience s url i st Hweb) as Hs.
    repeat split; try exact Hs. simpl. now rewrite Hs.
  - intros batch suites Hpos Hall.
    destruct (make_suites_facts suites 0) as (Hl & Hm & Hf).
    destruct (run_queue_no_hook (init batch suites) Hpos (Hf Hall)) as (st' & E & He & Hs).
    simpl in E, Hs. rewrite Hl in E.
    exists st'. split; [exact E|]. split; [exact He|].
    destruct (run_queue_from_init Page web config batch suites _ _ _ E) as ((Ho & _) & _).
    now rewrite Ho, Hs, Hm.
Qed.

End LoadFailure.

Lemma load_failure_recovered_witness :
  all_but_bad (length (Runner.opens (Runner.init None bad_then_good))) "bad" = None /\
  Runner.scrape all_but_bad Runner.default_config 3
    (Runner.new_suite "Suite 0" ["bad"; "good"] plain_opts) "bad" 0
    (Runner.init None bad_then_good)
  = Some (0, Runner.load_failed "bad" (Runner.init None bad_then_good)).
Proof.
  split; [reflexivity|].
  apply (proj1 (load_failure_recovered string all_but_bad Runner.default_config)
           3 (Runner.new_suite "Suite 0" ["bad"; "good"] plain_opts) "bad" ["good"] 0
           (Runner.init None bad_then_good)).
  reflexivity.
Defined.

(** Scenario B: of the two URLs the first does not load; the run exits,
    the log has the error for the first URL, the count is 1 and the one
    flush, first and last at once, carries the second URL's item, which
    the json formatter writes as a one-element array. *)
Example scenario_B :
  exists st',
    Runner.run_queue all_but_bad Runner.default_config 1 3 (Runner.init None bad_then_good)
      = Some st' /\
    Runner.exited st' = true /\
    Runner.log st' =
      ["* Suite 0 starting"; "ERROR: Page did not load: bad"; "* Scraping good";
       "* Suite 0 complete"; "* Writing 1 items"; "* Saved 1 items"] /\
    Writer.count (Runner.writer st') = 1 /\
    Writer.written (Runner.writer st') =
      [{| Writer.fl_first := true; Writer.fl_batch := [JStr "good"];
          Writer.fl_last := true |}] /\
    map (fun fl => fst (flush_text json tt fl)) (Writer.written (Runner.writer st')) =
      [Returns ("[" +:+ json_quote "good" +:+ "]")].
Proof.
  eexists. split; [vm_compute; reflexivity|].
  repeat split; vm_compute; reflexivity.
Qed.

(** ** A max depth of 0 *)

Section ZeroDepth.
Import Runner.
Variable Page : Type.
Variable web : nat -> string -> option Page.
Variable config : Config.

Lemma unset_zero_fields (s : Suite Page) :
  title (unset_zero s) = title s /\ urls (unset_zero s) = urls s /\
  depth (unset_zero s) = depth s /\
  ready (opts (unset_zero s)) = ready (opts s) /\
  scrapable (opts (unset_zero s)) = scrapable (opts s) /\
  scrapers (opts (unset_zero s)) = scrapers (opts s) /\
  moreUrls (opts (unset_zero s)) = moreUrls (opts s) /\
  depth_allows (unset_zero s) = depth_allows s.
Proof.
  unfold unset_zero, depth_allows.
  destruct (maxDepth (opts s)) as [[|m]|] eqn:E; simpl; rewrite ?E; now repeat split.
Qed.

Lemma unset_zero_child (s : Suite Page) t us d :
  unset_zero {| title := t; urls := us; opts := opts s; depth := d |} =
  {| title := t; urls := us; opts := opts (unset_zero s); depth := d |}.
Proof.
  unfold unset_zero. simpl. destruct (maxDepth (opts s)) as [[|m]|]; reflexivity.
Qed.

Lemma complete_unset_zero (s : Suite Page) page i st :
  complete (unset_zero s) page i (unset_zero_state st) =
  (fst (complete s page i st), unset_zero_state (snd (complete s page i st))).
Proof.
  destruct (unset_zero_fields s) as (Ht & _ & Hd & _ & _ & _ & Hm & Ha).
  unfold complete. rewrite Hm, Ha, Ht, Hd.
  destruct page as [p|]; [|reflexivity].
  destruct (moreUrls (opts s)) as [hook|]; [|reflexivity].
  destruct (hook p) as [more|]; [|reflexivity].
  destruct (depth_allows s); [|reflexivity].
  destruct (negb (length more =? 0)); [|reflexivity].
  unfold unset_zero_state, new_suite. simpl.
  now rewrite map_app, <- unset_zero_child.
Qed.

Lemma scrapePage_unset_zero (s : Suite Page) page w lg :
  scrapePage (unset_zero s) page w lg = scrapePage s page w lg.
Proof.
  destruct (unset_zero_fields s) as (_ & _ & _ & _ & Hs & Hc & _).
  unfold scrapePage. now rewrite Hs, Hc.
Qed.

Lemma scrape_unset_zero patience (s : Suite Page) url i st :
  scrape web config patience (unset_zero s) url i (unset_zero_state st) =
  (fun r => (fst r, unset_zero_state (snd r))) <$> scrape web config patience s url i st.
Proof.
  destruct (unset_zero_fields s) as (_ & _ & _ & Hr & _).
  unfold scrape. rewrite Hr.
  change (opens (unset_zero_state st)) with (opens st).
  change (writer (unset_zero_state st)) with (writer st).
  change (log (unset_zero_state st)) with (log st).
  destruct (web (length (opens st)) url) as [page|].
  - destruct (wait_ready config patience (ready (opts s) page)) as [k|]; [|reflexivity].
    rewrite scrapePage_unset_zero.
    destruct (scrapePage s page (writer st) (log_msg ("Scraping " +:+ url) (log st)))
      as [w lg'].
    cbn [fmap option_fmap option_map fst snd]. f_equal.
    exact (complete_unset_zero s (Some page) i
             {| queue := queue st; visited := {[ url ]} ∪ visited st; writer := w;
                log := lg'; opens := opens st ++ [(url, true)];
                scraped := scraped st ++ [(url, k)];
                started := started st; exited := exited st |}).
  - reflexivity.
Qed.

Lemma run_urls_unset_zero patience (s : Suite Page) us : forall i st,
  run_urls web config patience (unset_zero s) us i (unset_zero_state st) =
  unset_zero_state <$> run_urls web config patience s us i st.
Proof.
  destruct (unset_zero_fields s) as (Ht & _).
  induction us as [|url rest IH]; intros i st; simpl.
  - now rewrite Ht.
  - rewrite scrape_unset_zero.
    destruct (scrape web config patience s url i st) as [[i1 st1]|]; [|reflexivity].
    simpl. apply IH.
Qed.

Lemma step_unset_zero patience (st : State Page) :
  step web config patience (unset_zero_state st) =
  unset_zero_state <$> step web config patience st.
Proof.
  unfold step. simpl. destruct (queue st) as [|s q]; [reflexivity|]. simpl.
  destruct (unset_zero_fields s) as (Ht & Hu & _).
  unfold run_suite. rewrite Ht, Hu. simpl.
  rewrite <- run_urls_unset_zero. f_equal.
  unfold unset_zero_state. simpl. now rewrite map_app.
Qed.

Lemma run_queue_unset_zero fuel patience : forall (st : State Page),
  run_queue web config fuel patience (unset_zero_state st) =
  unset_zero_state <$> run_queue web config fuel patience st.
Proof.
  assert (Hfin : forall st : State Page,
            finalize (unset_zero_state st) = unset_zero_state (finalize st)).
  { intros st. unfold finalize. simpl. now destruct (Writer.finish (writer st) (log st)). }
  induction fuel as [|n IH]; intros st; simpl.
  - destruct (queue st); simpl; [now rewrite Hfin|reflexivity].
  - destruct (queue st) as [|s q] eqn:Eq; simpl; [now rewrite Hfin|].
    rewrite step_unset_zero.
    destruct (step web config patience st) as [st1|]; [|reflexivity].
    simpl. apply IH.
Qed.

(** C10. A suite configured with [maxDepth = 0] is treated as one whose
    [maxDepth] is unset: the depth test of link discovery passes at
    every depth, so a non-empty hook result always puts a sub-suite, one
    level deeper, on the queue; and a whole run in which such suites
    have the option unset makes the same opens, writes, log lines and
    suites, the suites differing in that option only. *)
Theorem maxDepth_zero_is_unset :
  (forall (s : Suite Page) p hook more i st,
     maxDepth (opts s) = Some 0 ->
     moreUrls (opts s) = Some hook -> hook p = Some more -> more <> [] ->
     maxDepth (opts (unset_zero s)) = None /\
     depth_allows s = true /\
     exists ss,
       queue (snd (complete s (Some p) i st)) = queue st ++ [ss] /\
       urls ss = more /\ depth ss = depth s + 1) /\
  (forall (s : Suite Page) page i st,
     complete (unset_zero s) page i (unset_zero_state st) =
     (fst (complete s page i st), unset_zero_state (snd (complete s page i st)))) /\
  (forall fuel patience (st : State Page),
     run_queue web config fuel patience (unset_zero_state st) =
     unset_zero_state <$> run_queue web config fuel patience st).
Proof.
  split; [|split].
  - intros s p hook more i st Hz Hh Hm Hne.
    split; [unfold unset_zero; now rewrite Hz|].
    assert (Ha : depth_allows s = true) by (unfold depth_allows; now rewrite Hz).
    split; [exact Ha|].
    unfold complete. rewrite Hh, Hm, Ha.
    destruct more as [|u more']; [contradiction|]. simpl.
    eexists. split; [reflexivity|]. split; reflexivity.
  - apply complete_unset_zero.
  - intros fuel patience st. apply run_queue_unset_zero.
Qed.

End ZeroDepth.

Lemma maxDepth_zero_is_unset_witness :
  Runner.maxDepth (Runner.opts (Runner.new_suite "Suite 0" ["a"]
     {| Runner.ready := fun _ _ => true; Runner.scrapable := fun _ => true;
        Runner.scrapers := []; Runner.moreUrls := Some links_of_a;
        Runner.maxDepth := Some 0 |})) = Some 0 /\
  Runner.depth_allows (Runner.new_suite "Suite 0" ["a"]
     {| Runner.ready := fun _ _ => true; Runner.scrapable := fun _ => true;
        Runner.scrapers := []; Runner.moreUrls := Some links_of_a;
        Runner.maxDepth := Some 0 |}) = true.
Proof.
  split; [reflexivity|].
  refine (proj1 (proj2 (proj1 (maxDepth_zero_is_unset string url_pages Runner.default_config)
            _ "a" links_of_a ["a"; "b"; "c"] 0 (Runner.init None (crawl_from_a (Some 0)))
            _ _ _ _))); try reflexivity.
  discriminate.
Defined.

(** * Further properties of the code *)

(** ** Batching *)

Section BatchingFacts.
Import Writer.

Lemma falsy_arrify i : truthy i = false -> arrify i = [].
Proof. destruct i; simpl; intros H; try reflexivity; try (now rewrite H); discriminate. Qed.

Lemma add_batchSize i w lg : batchSize (fst (add i w lg)) = batchSize w.
Proof.
  unfold add. destruct (truthy i); [|reflexivity].
  destruct (batchSize w) as [b|] eqn:E; [|now simpl].
  destruct (negb (b =? 0) && (b <? _)); now simpl.
Qed.

(** One [add]: nothing is lost, duplicated or reordered between the
    buffer and the batches written, and the count follows. *)
Lemma add_conserves i w lg :
  flushed (fst (add i w lg)) ++ items (fst (add i w lg)) = flushed w ++ items w ++ arrify i /\
  count (fst (add i w lg)) = count w + length (arrify i).
Proof.
  unfold add. destruct (truthy i) eqn:Ht.
  - destruct (batchSize w) as [b|]; [|now simpl].
    destruct (negb (b =? 0) && (b <? _)); [|now simpl].
    unfold flushed. simpl. rewrite map_app, concat_app. simpl.
    rewrite app_nil_r, <- app_assoc, take_drop. auto.
  - rewrite (falsy_arrify i Ht), !app_nil_r. simpl. auto.
Qed.

Lemma adds_conserves args : forall w lg,
  flushed (fst (adds args w lg)) ++ items (fst (adds args w lg)) =
    flushed w ++ items w ++ added_items args /\
  count (fst (adds args w lg)) = count w + length (added_items args) /\
  batchSize (fst (adds args w lg)) = batchSize w.
Proof.
  induction args as [|i rest IH]; intros w lg; simpl.
  - unfold added_items. simpl. rewrite !app_nil_r. auto.
  - destruct (add i w lg) as [w1 lg1] eqn:E.
    destruct (IH w1 lg1) as (Hf & Hc & Hb).
    destruct (add_conserves i w lg) as [Hf1 Hc1].
    pose proof (add_batchSize i w lg) as Hb1.
    rewrite E in Hf1, Hc1, Hb1. simpl in Hf1, Hc1, Hb1.
    rewrite Hf, Hc, Hb, Hb1, Hc1. unfold added_items. simpl.
    rewrite length_app, !app_assoc. rewrite app_assoc in Hf1. rewrite Hf1.
    repeat split. lia.
Qed.


End BatchingFacts.

Section BatchSizes.
Import Writer.

Lemma add_batches_of b i w lg :
  batchSize w = Some b -> 0 < b ->
  batches_of b w -> batches_of b (fst (add i w lg)).
Proof.
  intros Hb Hpos [Hall Hne]. unfold add. destruct (truthy i); [|now split].
  rewrite Hb. destruct (negb (b =? 0) && (b <? length (items w ++ arrify i))) eqn:E.
  - apply andb_true_iff in E as [_ Hlt]. apply Nat.ltb_lt in Hlt.
    split; simpl.
    + apply Forall_app. split; [exact Hall|]. repeat constructor. simpl.
      rewrite length_take. lia.
    + intros _ Hnil. apply (f_equal (@length _)) in Hnil.
      rewrite length_drop in Hnil. simpl in Hnil. lia.
  - split; simpl; [exact Hall|].
    intros Hw Hnil. apply app_eq_nil in Hnil as [Hnil _]. now apply Hne.
Qed.

Lemma adds_batches_of b args : forall w lg,
  batchSize w = Some b -> 0 < b ->
  batches_of b w -> batches_of b (fst (adds args w lg)).
Proof.
  induction args as [|i rest IH]; intros w lg Hb Hpos H; simpl; [exact H|].
  destruct (add i w lg) as [w1 lg1] eqn:E.
  apply IH; [|exact Hpos|].
  - pose proof (add_batchSize i w lg) as H1. rewrite E in H1. simpl in H1. congruence.
  - pose proof (add_batches_of b i w lg Hb Hpos H) as H1. now rewrite E in H1.
Qed.

(** Without a threshold, or with a threshold of 0, [add] never writes. *)
Lemma adds_no_threshold args : forall w lg,
  (batchSize w = None \/ batchSize w = Some 0) ->
  written (fst (adds args w lg)) = written w /\
  firstWrite (fst (adds args w lg)) = firstWrite w.
Proof.
  induction args as [|i rest IH]; intros w lg Hb; simpl; [auto|].
  destruct (add i w lg) as [w1 lg1] eqn:E.
  assert (H1 : written w1 = written w /\ firstWrite w1 = firstWrite w /\
               batchSize w1 = batchSize w).
  { pose proof (add_batchSize i w lg) as Hbs. rewrite E in Hbs. simpl in Hbs.
    assert (Hw : w1 = fst (add i w lg)) by now rewrite E.
    rewrite Hw. unfold add. destruct (truthy i); [|auto].
    destruct Hb as [-> | ->]; simpl; auto. }
  destruct H1 as (Hw & Hf & Hbs).
  destruct (IH w1 lg1) as [Hw' Hf']; [now rewrite Hbs|].
  rewrite Hw', Hf'. auto.
Qed.

(** X2. Every batch written by [add] under a threshold [b] carries
    exactly [b] items (only the batch of [finish] may differ); and
    without a threshold, or with a threshold of 0, a run writes once:
    the one flush of [finish], first and last at the same time, with all
    the items added. *)
Theorem flush_sizes (batch : option nat) (args : list JsValue) :
  let w0 := fst (adds args (create batch) []) in
  match batch with
  | Some (S b) => Forall (fun f => length (fl_batch f) = S b) (written w0)
  | _ =>
      written (fst (run batch args)) =
        [{| fl_first := true; fl_batch := added_items args; fl_last := true |}]
  end.
Proof.
  intros w0.
  assert (Hone : (batch = None \/ batch = Some 0) ->
            written (fst (run batch args)) =
              [{| fl_first := true; fl_batch := added_items args; fl_last := true |}]).
  { intros Hb. unfold run. subst w0.
    destruct (adds_no_threshold args (create batch) []) as [Hw Hf]; [exact Hb|].
    destruct (adds_conserves args (create batch) []) as (Hc & _).
    destruct (adds args (create batch) []) as [w lg]. simpl in *.
    unfold flushed in Hc. rewrite Hw in Hc. simpl in Hc.
    now rewrite Hw, Hf, Hc. }
  destruct batch as [[|b]|]; [now apply Hone; right| |now apply Hone; left].
  apply (adds_batches_of (S b) args (create (Some (S b))) []); [reflexivity|lia|].
  split; [constructor|]. intros H. now destruct H.
Qed.

(** X3. The buffer stays within the threshold as long as no single
    [add] brings more items than the threshold: if the buffer holds at
    most [b] items and every argument normalizes to at most [b] items,
    the buffer holds at most [b] items after the calls. *)
Theorem buffer_bounded (b : nat) (args : list JsValue) (w : t) (lg : Log) :
  batchSize w = Some b -> 0 < b ->
  length (items w) <= b ->
  Forall (fun i => length (arrify i) <= b) args ->
  length (items (fst (adds args w lg))) <= b.
Proof.
  revert w lg. induction args as [|i rest IH]; intros w lg Hb Hpos Hlen Hall; simpl.
  - exact Hlen.
  - apply Forall_cons in Hall as [Hi Hrest].
    destruct (add i w lg) as [w1 lg1] eqn:E.
    assert (Hw : w1 = fst (add i w lg)) by now rewrite E.
    apply IH; [| exact Hpos | | exact Hrest].
    + rewrite Hw, add_batchSize. exact Hb.
    + rewrite Hw. unfold add. destruct (truthy i); [|exact Hlen].
      rewrite Hb. destruct (negb (b =? 0) && (b <? length (items w ++ arrify i))) eqn:Ef.
      * simpl. rewrite length_drop, length_app. lia.
      * simpl. apply andb_false_iff in Ef as [Ef|Ef].
        -- apply negb_false_iff, Nat.eqb_eq in Ef. lia.
        -- apply Nat.ltb_ge in Ef. exact Ef.
Qed.

Lemma buffer_bounded_witness :
  batchSize (create (Some 2)) = Some 2 /\ 0 < 2 /\
  length (items (create (Some 2))) <= 2 /\
  Forall (fun i => length (arrify i) <= 2) [JNum 1; JArr [JNum 2; JNum 3]; JNull; JNum 4] /\
  length (items (fst (adds [JNum 1; JArr [JNum 2; JNum 3]; JNull; JNum 4]
                        (create (Some 2)) []))) <= 2.
Proof.
  split; [reflexivity|]. split; [lia|]. split; [simpl; lia|].
  assert (H : Forall (fun i => length (arrify i) <= 2)
                [JNum 1; JArr [JNum 2; JNum 3]; JNull; JNum 4])
    by (repeat constructor).
  split; [exact H|].
  apply (buffer_bounded 2 _ (create (Some 2)) []); [reflexivity|lia|simpl; lia|exact H].
Defined.

End BatchSizes.

(** ** The file writer with the json formatter *)

Section JsonFile.
Import Writer.

Lemma format_all_json batch : format_all json tt batch = (Returns (map stringify batch), tt).
Proof. induction batch as [|i rest IH]; simpl; [reflexivity|]. now rewrite IH. Qed.

Lemma flush_text_json fl : flush_text json tt fl = (Returns (json_flush_text fl), tt).
Proof. unfold flush_text. now rewrite format_all_json. Qed.

Lemma concat_app_nonempty sep (l1 l2 : list string) :
  l1 <> [] -> l2 <> [] ->
  String.concat sep (l1 ++ l2) = String.concat sep l1 +:+ sep +:+ String.concat sep l2.
Proof.
  intros H1 H2. induction l1 as [|x l1 IH]; [contradiction|].
  destruct l1 as [|y l1].
  - destruct l2 as [|z l2]; [contradiction|]. reflexivity.
  - change ((x :: y :: l1) ++ l2) with (x :: (y :: l1 ++ l2)).
    rewrite !concat_cons2. change (y :: l1 ++ l2) with ((y :: l1) ++ l2).
    rewrite IH by discriminate. now rewrite !append_assoc.
Qed.

Lemma js_join_app sep (l1 l2 : list (option string)) :
  l1 <> [] -> l2 <> [] ->
  js_join sep (l1 ++ l2) = js_join sep l1 +:+ sep +:+ js_join sep l2.
Proof.
  intros H1 H2. unfold js_join. rewrite map_app.
  apply concat_app_nonempty; now destruct l1, l2.
Qed.

(** The texts of the flushes made after the first one, before [finish]:
    each adds a comma and its items to what was written. *)
Lemma json_texts_later (fls : list Flush) : forall (acc : list JsValue) p c fs,
  acc <> [] ->
  Forall (fun f => fl_first f = false /\ fl_last f = false /\ fl_batch f <> []) fls ->
  Files.writes json p tt fls (<[p := c +:+ js_join "," (map stringify acc)]> fs) =
  Returns (<[p := c +:+ js_join "," (map stringify (acc ++ concat (map fl_batch fls)))]> fs).
Proof.
  induction fls as [|f fls IH]; intros acc p c fs Hacc Hall; simpl.
  - now rewrite app_nil_r.
  - apply Forall_cons in Hall as [(Hf & Hl & Hb) Hrest].
    rewrite flush_text_json. unfold Files.saveToFile, json_flush_text.
    rewrite lookup_insert_eq, insert_insert_eq, Hf, Hl. simpl default.
    rewrite append_nil_r, append_assoc.
    rewrite <- js_join_app by (try (now destruct acc); now destruct (fl_batch f)).
    rewrite <- map_app, app_assoc.
    apply IH; [now destruct acc|exact Hrest].
Qed.

End JsonFile.

Section JsonFileClaims.
Import Writer.

Lemma map_replicate_Forall {A B} (g : A -> B) (x : B) (l : list A) : forall n,
  map g l = replicate n x -> Forall (fun y => g y = x) l.
Proof.
  induction l as [|y l IH]; intros n H; [constructor|].
  destruct n as [|n]; [discriminate|]. simpl in H. injection H as Hy Hl.
  constructor; [exact Hy|]. now apply (IH n).
Qed.

(** The flags of the flushes made before [finish], spelled out. *)
Lemma open_framing_flags w :
  open_framing w ->
  (written w = [] /\ firstWrite w = true) \/
  (exists f tl, written w = f :: tl /\ firstWrite w = false /\
                fl_first f = true /\ fl_last f = false /\
                Forall (fun g => fl_first g = false) tl /\
                Forall (fun g => fl_last g = false) tl).
Proof.
  intros (_ & Hlast & Hfirst & Hempty).
  destruct (written w) as [|f tl] eqn:Ew.
  - left. split; [reflexivity|]. destruct (firstWrite w); [reflexivity|discriminate Hfirst].
  - right. exists f, tl. destruct (firstWrite w) eqn:Ef.
    + specialize (Hempty eq_refl). discriminate Hempty.
    + simpl in Hlast, Hfirst. injection Hlast as Hl Hlt. injection Hfirst as Hf Hft.
      repeat split; try assumption.
      * eapply map_replicate_Forall, Hft.
      * eapply map_replicate_Forall, Hlt.
Qed.

Lemma writes_json_app p (l1 l2 : list Flush) : forall fs,
  Files.writes json p tt (l1 ++ l2) fs =
  match Files.writes json p tt l1 fs with
  | Returns fs' => Files.writes json p tt l2 fs'
  | Throws => Throws
  end.
Proof.
  induction l1 as [|f l1 IH]; intros fs; simpl; [reflexivity|].
  rewrite flush_text_json. apply IH.
Qed.

Lemma stringify_defined_array (l : list JsValue) :
  Forall (fun v => v <> JUndefined) l ->
  map (fun e => default "null" (stringify e)) l = map or_empty (map stringify l).
Proof.
  induction 1 as [|v l Hv _ IH]; [reflexivity|]. simpl. rewrite IH. f_equal.
  destruct v; try reflexivity. now destruct Hv.
Qed.

(** X4. With the json formatter, what a run of the file writer leaves
    in the output file does not depend on the batch size or on what the
    file held before: it is the opening bracket, the JSON texts of all
    the items added, in order and separated by commas, and the closing
    bracket; when no added item is [undefined] this is
    [JSON.stringify] of the array of the items. *)
Theorem json_file_holds_all_items (outFile : string) (fs : gmap string string)
    (batch : option nat) (args : list JsValue) :
  let text := "[" +:+ js_join "," (map stringify (added_items args)) +:+ "]" in
  Files.file_writer_output json outFile (fst (run batch args)) fs
    = Returns (<[outFile := text]> fs) /\
  (Forall (fun v => v <> JUndefined) (added_items args) ->
   stringify (JArr (added_items args)) = Some text).
Proof.
  intros text. split.
  - unfold Files.file_writer_output, run. simpl f_init.
    pose proof (adds_open_framing args (create batch) [] (create_open_framing batch)) as Hfr.
    destruct (adds_conserves args (create batch) []) as (Hcons & _).
    assert (Hne : written (fst (adds args (create batch) [])) <> [] ->
              Forall (fun f => fl_batch f <> []) (written (fst (adds args (create batch) []))) /\
              items (fst (adds args (create batch) [])) <> []).
    { intros Hw. destruct batch as [[|b]|].
      - destruct (adds_no_threshold args (create (Some 0)) []) as [H _]; [now right|].
        now rewrite H in Hw.
      - destruct (adds_batches_of (S b) args (create (Some (S b))) []) as [Hall Hit];
          [reflexivity|lia|split; [constructor|intros H; now destruct H]|].
        split; [|now apply Hit].
        eapply Forall_impl; [exact Hall|]. intros f Hf Hnil. simpl in Hf.
        rewrite Hnil in Hf. discriminate.
      - destruct (adds_no_threshold args (create None) []) as [H _]; [now left|].
        now rewrite H in Hw. }
    destruct (adds args (create batch) []) as [w lg]. simpl fst in *.
    unfold flushed in Hcons. simpl in Hcons.
    unfold Files.saveToFile at 1. simpl written.
    destruct (open_framing_flags w Hfr) as [[Hw Hf]|(f & tl & Hw & Hf & Hff & Hfl & Htf & Htl)].
    + rewrite Hw in *. simpl in Hcons. rewrite Hf. simpl.
      rewrite flush_text_json. unfold Files.saveToFile, json_flush_text. simpl.
      rewrite lookup_insert_eq, insert_insert_eq. simpl. now rewrite Hcons.
    + destruct (Hne ltac:(rewrite Hw; discriminate)) as [Hbatches Hitems].
      rewrite Hw in *. apply Forall_cons in Hbatches as [Hbf Hbt].
      rewrite Hf. change ((f :: tl) ++ ?x) with (f :: (tl ++ x)).
      cbn [Files.writes]. rewrite flush_text_json.
      unfold Files.saveToFile at 1. rewrite lookup_insert_eq, insert_insert_eq.
      change (default EmptyString (Some ?x)) with x.
      unfold json_flush_text at 1. rewrite Hff, Hfl, append_nil_r.
      change (EmptyString +:+ ?x) with x.
      rewrite writes_json_app, json_texts_later; [|exact Hbf|].
      * cbn [Files.writes]. rewrite flush_text_json.
        unfold Files.saveToFile. rewrite lookup_insert_eq, insert_insert_eq.
        change (default EmptyString (Some ?x)) with x.
        unfold json_flush_text. cbn [fl_first fl_batch fl_last].
        f_equal. f_equal. unfold text. rewrite <- Hcons. cbn [map concat].
        rewrite !append_assoc. f_equal.
        rewrite <- (append_assoc _ "," _), <- (append_assoc _ _ "]").
        f_equal. symmetry. rewrite append_assoc, <- js_join_app.
        -- now rewrite <- map_app.
        -- destruct (fl_batch f); [contradiction|discriminate].
        -- now destruct (items w).
      * clear - Htf Htl Hbt. induction tl as [|g tl IH]; [constructor|].
        apply Forall_cons in Htf as [? ?]. apply Forall_cons in Htl as [? ?].
        apply Forall_cons in Hbt as [? ?]. constructor; auto.
  - intros Hdef. unfold text. simpl. unfold js_join.
    now rewrite (stringify_defined_array _ Hdef).
Qed.

End JsonFileClaims.

Lemma json_file_holds_all_items_witness :
  Forall (fun v => v <> JUndefined) (added_items [JNum 1; JArr [JStr "a"; JNull]]) /\
  stringify (JArr (added_items [JNum 1; JArr [JStr "a"; JNull]])) =
    Some ("[" +:+ js_join "," (map stringify (added_items [JNum 1; JArr [JStr "a"; JNull]]))
          +:+ "]").
Proof.
  assert (H : Forall (fun v => v <> JUndefined) (added_items [JNum 1; JArr [JStr "a"; JNull]]))
    by (repeat constructor; discriminate).
  split; [exact H|].
  exact (proj2 (json_file_holds_all_items "out" ∅ (Some 1) [JNum 1; JArr [JStr "a"; JNull]]) H).
Defined.

(** ** More on the csv formatter *)

Section CsvMore.
Import Csv.




Lemma cells_throws row : In (Some JUndefined) row -> cells row = Throws.
Proof.
  induction row as [|o row IH]; intros Hin; [destruct Hin|].
  destruct Hin as [->|Hin]; [reflexivity|].
  simpl. rewrite (IH Hin). destruct o as [v|]; [|reflexivity]. now destruct (cell v).
Qed.

Lemma fit_undefined n (l : list JsValue) :
  In (Some JUndefined) (fit n l) <-> In JUndefined (take n l).
Proof.
  rewrite fit_pad, in_app_iff, in_map_iff. split.
  - intros [(v & Hv & Hin)|Hin]; [now inversion Hv; subst|].
    apply list_elem_of_In, elem_of_replicate in Hin as [Hin _]. discriminate.
  - intros Hin. left. now exists JUndefined.
Qed.

Lemma cells_throws_inv row : cells row = Throws -> In (Some JUndefined) row.
Proof.
  induction row as [|[v|] row IH]; simpl; intros H; [discriminate| |].
  - unfold cell in H. destruct v; simpl in H; try (now left);
      (destruct (cells row); [discriminate|right; now apply IH]).
  - destruct (cells row); [discriminate|right; now apply IH].
Qed.

(** X6. On an array item the csv formatter throws exactly when one of
    the values it uses, the first as many as there are fields, is
    [undefined]; and the field list made from the item stays assigned
    even then, so the header it would have come with is never written. *)
Theorem csv_array_throws (fields : option (list string)) (l : list JsValue) :
  (fst (format fields (JArr l)) = Throws <->
   In JUndefined (take (length (fields_for fields (JArr l))) l)) /\
  snd (format fields (JArr l)) = Some (fields_for fields (JArr l)).
Proof.
  assert (Hcells : forall n, cells (fit n l) = Throws <-> In JUndefined (take n l)).
  { intros n. split.
    - intros Hthrows. now apply fit_undefined, cells_throws_inv.
    - intros Hin. apply cells_throws, fit_undefined, Hin. }
  unfold format. simpl truthy. simpl typeof_object. cbv iota.
  destruct fields as [fs|]; cbv zeta beta iota; simpl fst; simpl snd;
    simpl fields_for; (split; [|reflexivity]).
  - rewrite <- Hcells. simpl row_values. destruct (cells (fit (length fs) l)); split;
      intros H; try reflexivity; discriminate.
  - rewrite <- Hcells. simpl row_values.
    destruct (cells (fit (length (column_names (length l))) l)); split;
      intros H; try reflexivity; discriminate.
Qed.

End CsvMore.

Section CsvFields.
Import Csv.

Lemma format_keeps_fields fs item : snd (format (Some fs) item) = Some fs.
Proof. unfold format. now destruct (truthy item && typeof_object item). Qed.

Lemma format_all_keeps_fields c fs batch :
  snd (format_all (formatter c) (Some fs) batch) = Some fs.
Proof.
  revert fs. induction batch as [|item rest IH]; intros fs; [reflexivity|].
  simpl format_all. change (f_format (formatter c)) with format.
  pose proof (format_keeps_fields fs item) as H.
  destruct (format (Some fs) item) as [[s|] st']; simpl in H; subst st'.
  - specialize (IH fs). destruct (format_all (formatter c) (Some fs) rest) as [r st''].
    destruct r; exact IH.
  - reflexivity.
Qed.

Lemma format_skips_non_row fields item :
  is_row_item item = false -> format fields item = (Returns None, fields).
Proof.
  destruct item; simpl; intros H; try discriminate;
    unfold format; simpl typeof_object; now rewrite ?andb_false_r.
Qed.

Lemma format_sets_fields fields item :
  is_row_item item = true -> snd (format fields item) = Some (fields_for fields item).
Proof.
  destruct item; simpl; intros H; try discriminate;
    unfold format; simpl; now destruct fields.
Qed.

(** X7. The columns of a csv output are fixed by the first item that is
    an object or an array: items that are neither (numbers, strings,
    booleans, null) are formatted as [undefined] and leave the field
    list alone, the first object or array assigns it (the configured
    list if there is one, otherwise the list made from that item), and
    nothing formatted afterwards changes it. *)
Theorem csv_fields_fixed_by_first_row (c : option (list string))
    (pre : list JsValue) (item : JsValue) (rest : list JsValue) :
  Forall (fun v => is_row_item v = false) pre ->
  is_row_item item = true ->
  snd (format_all (formatter c) c (pre ++ item :: rest)) = Some (fields_for c item).
Proof.
  intros Hpre Hitem. induction Hpre as [|v pre Hv _ IH].
  - simpl app. simpl format_all. change (f_format (formatter c)) with format.
    pose proof (format_sets_fields c item Hitem) as H.
    destruct (format c item) as [[s|] st']; simpl in H; subst st'.
    + pose proof (format_all_keeps_fields c (fields_for c item) rest) as H.
      destruct (format_all (formatter c) (Some (fields_for c item)) rest) as [r st''].
      destruct r; exact H.
    + reflexivity.
  - simpl app. simpl format_all. change (f_format (formatter c)) with format.
    rewrite (format_skips_non_row c v Hv).
    destruct (format_all (formatter c) c (pre ++ item :: rest)) as [r st''].
    destruct r; exact IH.
Qed.

Lemma csv_fields_fixed_by_first_row_witness :
  Forall (fun v => is_row_item v = false) [JNum 3; JNull] /\
  is_row_item (JArr [JNum 1; JNum 2]) = true /\
  snd (format_all (formatter None) None
         ([JNum 3; JNull] ++ JArr [JNum 1; JNum 2] :: [JObj [("k", JNum 5)]]))
    = Some (fields_for None (JArr [JNum 1; JNum 2])).
Proof.
  assert (H : Forall (fun v => is_row_item v = false) [JNum 3; JNull])
    by (repeat constructor).
  split; [exact H|]. split; [reflexivity|].
  exact (csv_fields_fixed_by_first_row None [JNum 3; JNull] (JArr [JNum 1; JNum 2])
           [JObj [("k", JNum 5)]] H eq_refl).
Defined.

End CsvFields.

(** ** [extend] and [pjs.config] *)

Section ObjFacts.
Import Obj.

Lemma get_set_prop k k' v o :
  Csv.get_prop k (set_prop k' v o) = if String.eqb k' k then v else Csv.get_prop k o.
Proof.
  induction o as [|[k0 v0] o IH]; simpl.
  - destruct (String.eqb k' k); reflexivity.
  - destruct (String.eqb k0 k') eqn:E0; simpl.
    + apply String.eqb_eq in E0. subst k0. destruct (String.eqb k' k); reflexivity.
    + destruct (String.eqb k0 k) eqn:E1; [|exact IH].
      apply String.eqb_eq in E1. subst k0. now rewrite String.eqb_sym, E0.
Qed.

Lemma get_prop_missing k o : ~ In k (Csv.getKeys o) -> Csv.get_prop k o = JUndefined.
Proof.
  induction o as [|[k0 v0] o IH]; simpl; intros H; [reflexivity|].
  destruct (String.eqb k0 k) eqn:E.
  - apply String.eqb_eq in E. tauto.
  - apply IH. tauto.
Qed.

Lemma extend_keys_lookup source k : forall ks obj,
  Csv.get_prop k
    (fold_left (fun acc prop =>
                  let v := Csv.get_prop prop source in
                  if is_undefined v then acc else set_prop prop v acc) ks obj) =
  if existsb (String.eqb k) ks && negb (is_undefined (Csv.get_prop k source))
  then Csv.get_prop k source else Csv.get_prop k obj.
Proof.
  induction ks as [|p ks IH]; intros obj; simpl; [reflexivity|].
  rewrite IH. destruct (String.eqb k p) eqn:E.
  - apply String.eqb_eq in E. subst p. simpl.
    destruct (is_undefined (Csv.get_prop k source)) eqn:Eu; simpl.
    + now rewrite andb_false_r.
    + rewrite andb_true_r, get_set_prop, String.eqb_refl. now destruct (existsb _ ks).
  - simpl. destruct (existsb (String.eqb k) ks && negb (is_undefined (Csv.get_prop k source)));
      [reflexivity|].
    destruct (is_undefined (Csv.get_prop p source)); [reflexivity|].
    now rewrite get_set_prop, String.eqb_sym, E.
Qed.

Lemma extend_from_lookup source obj k :
  Csv.get_prop k (extend_from source obj) =
  if is_undefined (Csv.get_prop k source) then Csv.get_prop k obj else Csv.get_prop k source.
Proof.
  unfold extend_from. rewrite extend_keys_lookup.
  destruct (is_undefined (Csv.get_prop k source)) eqn:Eu.
  - now rewrite andb_false_r.
  - rewrite andb_true_r. destruct (existsb (String.eqb k) (Csv.getKeys source)) eqn:Ex;
      [reflexivity|].
    rewrite get_prop_missing in Eu; [discriminate|].
    intros Hin. assert (existsb (String.eqb k) (Csv.getKeys source) = true); [|congruence].
    apply existsb_exists. exists k. split; [exact Hin|apply String.eqb_refl].
Qed.

(** X8. After [extend(obj, source_1, ..., source_n)] the object holds,
    under every name, the value of the last source whose value there is
    not [undefined], and its own earlier value when no source has one:
    an [undefined] property never overwrites, and later sources win. *)
Theorem extend_lookup (obj : list (string * JsValue))
    (sources : list (list (string * JsValue))) (k : string) :
  Csv.get_prop k (extend obj sources) = last_defined k obj sources.
Proof.
  unfold extend, last_defined. revert obj.
  induction sources as [|source rest IH]; intros obj; simpl; [reflexivity|].
  rewrite IH, extend_from_lookup.
  now destruct (is_undefined (Csv.get_prop k source)).
Qed.



End ObjFacts.

(** ** Polling *)

Section PollMore.
Import Runner.
Variable config : Config.

Lemma poll_never_ready rdy patience : forall tick elapsed,
  (timeoutInterval config <= 0)%Z ->
  (elapsed <= timeoutLimit config)%Z ->
  (forall k, rdy k = false) ->
  poll config patience rdy tick elapsed = None.
Proof.
  induction patience as [|n IH]; intros tick elapsed Hi He Hr; [reflexivity|].
  simpl. rewrite Hr. simpl.
  assert ((timeoutLimit config <? elapsed)%Z = false) as -> by (apply Z.ltb_ge; lia).
  apply IH; [exact Hi|lia|exact Hr].
Qed.


(** X11. With an interval of 0 (or below) and a limit that is not
    negative, [elapsed] never passes the limit: a page whose [ready]
    never holds is polled for ever and never scraped, however many
    times the callback runs. *)
Theorem zero_interval_never_times_out (rdy : nat -> bool) (patience : nat) :
  (timeoutInterval config <= 0)%Z ->
  (0 <= timeoutLimit config)%Z ->
  (forall k, rdy k = false) ->
  wait_ready config patience rdy = None.
Proof.
  intros Hi Hl Hr. unfold wait_ready. rewrite Hr.
  apply poll_never_ready; assumption.
Qed.

End PollMore.


Lemma zero_interval_never_times_out_witness :
  (Runner.timeoutInterval {| Runner.timeoutInterval := 0; Runner.timeoutLimit := 3000 |} <= 0)%Z /\
  (0 <= Runner.timeoutLimit {| Runner.timeoutInterval := 0; Runner.timeoutLimit := 3000 |})%Z /\
  (forall k : nat, (fun _ : nat => false) k = false) /\
  Runner.wait_ready {| Runner.timeoutInterval := 0; Runner.timeoutLimit := 3000 |} 1000
    (fun _ => false) = None.
Proof.
  split; [simpl; lia|]. split; [simpl; lia|]. split; [reflexivity|].
  apply zero_interval_never_times_out; [simpl; lia|simpl; lia|reflexivity].
Defined.

(** ** What a run records *)

Section Accounts.
Import Runner.
Variable Page : Type.
Variable web : nat -> string -> option Page.
Variable config : Config.

Lemma count_errors_msg m lg : count_errors (log_msg m lg) = count_errors lg.
Proof.
  unfold count_errors, log_msg. rewrite List.filter_app, length_app. simpl.
  change (is_error_line ("* " +:+ m)) with false. simpl. lia.
Qed.

Lemma count_errors_error m lg : count_errors (log_error m lg) = S (count_errors lg).
Proof.
  unfold count_errors, log_error. rewrite List.filter_app, length_app. simpl.
  assert (is_error_line ("ERROR: " +:+ m) = true) as -> by (destruct m; reflexivity).
  simpl. lia.
Qed.

Lemma add_accounts i w lg :
  (writer_balanced w -> writer_balanced (fst (Writer.add i w lg))) /\
  count_errors (snd (Writer.add i w lg)) = count_errors lg.
Proof.
  split.
  - unfold writer_balanced. intros Hb.
    destruct (add_conserves i w lg) as [Hf Hc].
    apply (f_equal (@length _)) in Hf. rewrite !length_app in Hf. lia.
  - unfold Writer.add. destruct (truthy i); [|reflexivity].
    destruct (Writer.batchSize w) as [b|]; [|reflexivity].
    destruct (negb (b =? 0) && (b <? _)); [|reflexivity].
    unfold Writer.writeBatch. simpl. apply count_errors_msg.
Qed.

Lemma scrapePage_accounts (s : Suite Page) page w lg :
  (writer_balanced w -> writer_balanced (fst (scrapePage s page w lg))) /\
  count_errors (snd (scrapePage s page w lg)) = count_errors lg.
Proof.
  unfold scrapePage. destruct (scrapable (opts s) page); [|auto].
  generalize (scrapers (opts s)). intros l. revert w lg.
  induction l as [|sc l IH]; intros w lg; simpl; [auto|].
  destruct (add_accounts (sc page) w lg) as [Hb He].
  destruct (Writer.add (sc page) w lg) as [w1 lg1]. simpl in Hb, He.
  destruct (IH w1 lg1) as [Hb' He'].
  split; [auto|congruence].
Qed.

Lemma complete_accounts (s : Suite Page) page i st :
  run_accounts st -> run_accounts (snd (complete s page i st)).
Proof.
  intros H. unfold complete.
  destruct page as [p|]; [|exact H].
  destruct (moreUrls (opts s)) as [hook|]; [|exact H].
  destruct (hook p) as [more|]; [|exact H].
  destruct (depth_allows s); [|exact H].
  destruct (negb (length more =? 0)); [|exact H].
  destruct H as (Hs & He & Hw). unfold run_accounts. simpl.
  rewrite count_errors_msg. auto.
Qed.

Lemma loaded_urls_snoc os url ok :
  loaded_urls (os ++ [(url, ok)]) = loaded_urls os ++ (if ok then [url] else []).
Proof. unfold loaded_urls. rewrite omap_app. now destruct ok. Qed.

Lemma failed_opens_snoc os url ok :
  length (failed_opens (os ++ [(url, ok)])) =
  length (failed_opens os) + (if ok then 0 else 1).
Proof.
  unfold failed_opens. rewrite List.filter_app, length_app. now destruct ok.
Qed.

Lemma scrape_accounts patience (s : Suite Page) url i st r :
  scrape web config patience s url i st = Some r ->
  run_accounts st -> run_accounts (snd r).
Proof.
  unfold scrape. intros H (Hs & He & Hw).
  destruct (web (length (opens st)) url) as [page|].
  - destruct (wait_ready config patience (ready (opts s) page)) as [k|]; [|discriminate].
    destruct (scrapePage_accounts s page (writer st) (log_msg ("Scraping " +:+ url) (log st)))
      as [Hb Hc].
    destruct (scrapePage s page (writer st) (log_msg ("Scraping " +:+ url) (log st)))
      as [w lg'].
    apply (inj Some) in H. rewrite <- H. apply complete_accounts.
    unfold run_accounts. simpl in *.
    rewrite map_app, loaded_urls_snoc, failed_opens_snoc, Hs, Hc, count_errors_msg, He.
    simpl. repeat split; [lia|auto].
  - apply (inj Some) in H. rewrite <- H. apply complete_accounts.
    unfold run_accounts, load_failed. simpl.
    rewrite loaded_urls_snoc, failed_opens_snoc, count_errors_error, app_nil_r, He.
    repeat split; [exact Hs|lia|exact Hw].
Qed.

Lemma run_urls_accounts patience (s : Suite Page) us : forall i st st',
  run_urls web config patience s us i st = Some st' ->
  run_accounts st -> run_accounts st'.
Proof.
  induction us as [|url rest IH]; intros i st st' H Hacc; simpl in H.
  - apply (inj Some) in H. subst st'. destruct Hacc as (Hs & He & Hw).
    unfold run_accounts. simpl. rewrite count_errors_msg. auto.
  - destruct (scrape web config patience s url i st) as [[i1 st1]|] eqn:E; [|discriminate].
    eapply IH; [exact H|]. exact (scrape_accounts _ _ _ _ _ _ E Hacc).
Qed.

Lemma step_accounts patience (st st' : State Page) :
  step web config patience st = Some st' -> run_accounts st -> run_accounts st'.
Proof.
  unfold step, run_suite. intros H (Hs & He & Hw).
  destruct (queue st) as [|s q]; [discriminate|].
  eapply run_urls_accounts; [exact H|].
  unfold run_accounts. simpl. rewrite count_errors_msg. auto.
Qed.

Lemma reaches_accounts patience (st st' : State Page) :
  reaches web config patience st st' -> run_accounts st -> run_accounts st'.
Proof.
  induction 1 as [st|st st1 st2 Hstep _ IH]; intros Hacc; [exact Hacc|].
  apply IH. eapply step_accounts; eassumption.
Qed.

Lemma init_accounts batch (suites : list (SuiteConfig Page)) :
  run_accounts (init batch suites).
Proof. repeat split. Qed.

End Accounts.

Section AccountsClaims.
Import Runner.
Variable Page : Type.
Variable web : nat -> string -> option Page.
Variable config : Config.

Lemma run_queue_accounts batch (suites : list (SuiteConfig Page)) fuel patience st' :
  run_queue web config fuel patience (init batch suites) = Some st' ->
  exists st1, run_accounts st1 /\ st' = finalize st1.
Proof.
  intros H.
  destruct (run_queue_reaches Page web config fuel patience _ _ H) as (st1 & Hr & _ & ->).
  exists st1. split; [|reflexivity].
  eapply reaches_accounts; [exact Hr|apply init_accounts].
Qed.

Lemma finalize_log (st : State Page) :
  log (finalize st) =
  log st ++ ["* Writing " +:+ nat_to_string (length (Writer.items (writer st))) +:+ " items";
             "* Saved " +:+ nat_to_string (Writer.count (writer st)) +:+ " items"] /\
  flushed (writer (finalize st)) = flushed (writer st) ++ Writer.items (writer st) /\
  Writer.count (writer (finalize st)) = Writer.count (writer st).
Proof.
  unfold finalize, Writer.finish, Writer.writeBatch, flushed, log_msg. simpl.
  rewrite <- app_assoc, map_app, concat_app. simpl. now rewrite app_nil_r.
Qed.


(** X13. In every run, the log holds exactly one error line for each
    open that failed, and no other error line. *)
Theorem one_error_line_per_failed_open batch (suites : list (SuiteConfig Page)) patience :
  (forall st', reaches web config patience (init batch suites) st' ->
     count_errors (log st') = length (failed_opens (opens st'))) /\
  (forall fuel st', run_queue web config fuel patience (init batch suites) = Some st' ->
     count_errors (log st') = length (failed_opens (opens st'))).
Proof.
  split.
  - intros st' Hr. now apply (reaches_accounts Page web config patience _ _ Hr), init_accounts.
  - intros fuel st' H. destruct (run_queue_accounts _ _ _ _ _ H) as (st1 & (_ & He & _) & ->).
    destruct (finalize_frame Page st1) as (_ & _ & Ho & _).
    destruct (finalize_log st1) as (Hl & _). rewrite Ho, Hl, <- He.
    unfold count_errors. rewrite List.filter_app, length_app. simpl. lia.
Qed.


End AccountsClaims.


Lemma one_error_line_per_failed_open_witness :
  exists st',
    Runner.run_queue all_but_bad Runner.default_config 1 3 (Runner.init None bad_then_good)
      = Some st' /\
    count_errors (Runner.log st') = length (failed_opens (Runner.opens st')).
Proof.
  destruct (Runner.run_queue all_but_bad Runner.default_config 1 3
              (Runner.init None bad_then_good)) as [st'|] eqn:E;
    [|vm_compute in E; discriminate E].
  exists st'. split; [reflexivity|].
  exact (proj2 (one_error_line_per_failed_open string all_but_bad Runner.default_config
                  None bad_then_good 3) 1 st' E).
Defined.


(** ** The order in which suites run *)

Section Order.
Import Runner.
Variable Page : Type.
Variable web : nat -> string -> option Page.
Variable config : Config.

Lemma same_depth_sorted (l : list (Suite Page)) d :
  Forall (fun s => depth s = d) l -> StronglySorted by_depth l.
Proof.
  induction 1 as [|s l Hs Hl IH]; constructor; [exact IH|].
  eapply Forall_impl; [exact Hl|]. intros x Hx. unfold by_depth. simpl in *. lia.
Qed.

Lemma step_bfs_order patience (st st' : State Page) :
  step web config patience st = Some st' ->
  bfs_order st ->
  bfs_order st' /\
  exists children,
    started st' ++ queue st' = (started st ++ queue st) ++ children /\
    Forall (fun c => 1 <= depth c) children.
Proof.
  intros Hstep [Hsorted Hspan].
  destruct (step_frame Page web config patience st st' Hstep)
    as (s & q & extra & os & Hq & Hq' & Hc & Hs & _).
  assert (Hcd : Forall (fun c => depth c = depth s + 1) extra).
  { eapply Forall_impl; [exact Hc|]. now intros c (Hd & _). }
  assert (Heq : started st' ++ queue st' = (started st ++ queue st) ++ extra).
  { rewrite Hs, Hq', Hq, <- !app_assoc. reflexivity. }
  rewrite Hq in Hsorted, Hspan.
  assert (Hs_in : s ∈ s :: q) by apply list_elem_of_here.
  pose proof (proj1 (StronglySorted_app _ _ _) Hsorted) as (Hbefore & _ & Hsq).
  apply StronglySorted_cons in Hsq as [Hafter _].
  split; [split|].
  - rewrite Heq, Hq. apply StronglySorted_app_2; [|exact Hsorted|].
    + intros x1 x2 H1 H2. unfold by_depth.
      rewrite Forall_forall in Hcd. rewrite (Hcd x2 H2).
      apply elem_of_app in H1 as [H1|H1].
      * specialize (Hbefore x1 s H1 Hs_in). unfold by_depth in Hbefore. lia.
      * specialize (Hspan x1 s H1 Hs_in). lia.
    + eapply same_depth_sorted, Hcd.
  - rewrite Hq'. intros x y Hx Hy.
    rewrite Forall_forall in Hcd, Hafter.
    apply elem_of_app in Hx as [Hx|Hx]; apply elem_of_app in Hy as [Hy|Hy].
    + apply Hspan; now apply list_elem_of_further.
    + rewrite (Hcd y Hy).
      specialize (Hspan x s (list_elem_of_further _ _ _ Hx) Hs_in). lia.
    + rewrite (Hcd x Hx). specialize (Hafter y Hy). unfold by_depth in Hafter. lia.
    + rewrite (Hcd x Hx), (Hcd y Hy). lia.
  - exists extra. split; [exact Heq|].
    eapply Forall_impl; [exact Hcd|]. intros c Hd. simpl in *. lia.
Qed.

Lemma reaches_bfs_order patience (st st' : State Page) :
  reaches web config patience st st' ->
  bfs_order st ->
  bfs_order st' /\
  exists children,
    started st' ++ queue st' = (started st ++ queue st) ++ children /\
    Forall (fun c => 1 <= depth c) children.
Proof.
  induction 1 as [st|st st1 st2 Hstep _ IH]; intros Hord.
  - split; [exact Hord|]. exists []. now rewrite app_nil_r.
  - destruct (step_bfs_order patience st st1 Hstep Hord) as (Hord1 & c1 & He1 & Hc1).
    destruct (IH Hord1) as (Hord2 & c2 & He2 & Hc2).
    split; [exact Hord2|]. exists (c1 ++ c2).
    rewrite He2, He1, <- !app_assoc. split; [reflexivity|]. now apply Forall_app.
Qed.

Lemma init_bfs_order batch (suites : list (SuiteConfig Page)) :
  bfs_order (init batch suites).
Proof.
  assert (Hd : forall i, Forall (fun s : Suite Page => depth s = 0) (make_suites i suites)).
  { induction suites as [|c rest IH]; intros i; simpl; constructor; [reflexivity|apply IH]. }
  split; simpl.
  - eapply same_depth_sorted, Hd.
  - intros x y Hx Hy. specialize (Hd 0). rewrite Forall_forall in Hd.
    rewrite (Hd x Hx). lia.
Qed.

(** X15. Suites run in breadth-level order: all along a run, the suites
    started so far followed by the suites still queued are in order of
    non-decreasing depth, so every suite of one level runs before any
    suite of the next. *)
Theorem suites_run_by_level batch (suites : list (SuiteConfig Page)) patience st' :
  reaches web config patience (init batch suites) st' ->
  StronglySorted by_depth (started st' ++ queue st').
Proof.
  intros Hr.
  now destruct (reaches_bfs_order patience _ _ Hr (init_bfs_order batch suites)) as [[H _] _].
Qed.

(** X16. The configured suites run first and in the order in which they
    were configured: all along a run, the suites started followed by the
    suites queued are the configured suites followed by sub-suites made
    by link discovery, all of depth 1 or more. *)
Theorem configured_suites_first batch (suites : list (SuiteConfig Page)) patience st' :
  reaches web config patience (init batch suites) st' ->
  exists children,
    started st' ++ queue st' = make_suites 0 suites ++ children /\
    Forall (fun c => 1 <= depth c) children.
Proof.
  intros Hr.
  destruct (reaches_bfs_order patience _ _ Hr (init_bfs_order batch suites))
    as (_ & children & He & Hc).
  exists children. split; [exact He|exact Hc].
Qed.

End Order.

Lemma suites_run_by_level_witness :
  exists st',
    Runner.step url_pages Runner.default_config 3
      (Runner.init None (crawl_from_a (Some 2))) = Some st' /\
    StronglySorted by_depth (Runner.started st' ++ Runner.queue st').
Proof.
  destruct (Runner.step url_pages Runner.default_config 3
              (Runner.init None (crawl_from_a (Some 2)))) as [st'|] eqn:E;
    [|vm_compute in E; discriminate E].
  exists st'. split; [reflexivity|].
  apply (suites_run_by_level string url_pages Runner.default_config None
           (crawl_from_a (Some 2)) 3 st').
  eapply Runner.reaches_step; [exact E|apply Runner.reaches_refl].
Defined.

Lemma configured_suites_first_witness :
  exists st' children,
    Runner.step url_pages Runner.default_config 3
      (Runner.init None (crawl_from_a (Some 2))) = Some st' /\
    Runner.started st' ++ Runner.queue st' =
      Runner.make_suites 0 (crawl_from_a (Some 2)) ++ children /\
    Forall (fun c => 1 <= Runner.depth c) children.
Proof.
  destruct (Runner.step url_pages Runner.default_config 3
              (Runner.init None (crawl_from_a (Some 2)))) as [st'|] eqn:E;
    [|vm_compute in E; discriminate E].
  destruct (configured_suites_first string url_pages Runner.default_config None
              (crawl_from_a (Some 2)) 3 st') as (children & He & Hc).
  { eapply Runner.reaches_step; [exact E|apply Runner.reaches_refl]. }
  exists st', children. split; [reflexivity|]. split; [exact He|exact Hc].
Defined.

(** ** Crawls that do not end *)

Section Endless.
Import Runner.
Variable Page : Type.
Variable web : nat -> string -> option Page.
Variable config : Config.
Hypothesis web_loads : forall n url, exists page, web n url = Some page.

Lemma ever_linking_allows (s : Suite Page) : ever_linking s -> depth_allows s = true.
Proof. intros (_ & [H|H] & _); unfold depth_allows; now rewrite H. Qed.

Lemma child_ever_linking (s ss : Suite Page) :
  ever_linking s -> child_of s ss -> ever_linking ss.
Proof.
  intros (_ & Hm & Hh) (_ & Ho & _ & Hu). unfold ever_linking. rewrite Ho. auto.
Qed.

Lemma scrape_spawns patience (s : Suite Page) url i st r :
  ever_linking s ->
  scrape web config patience s url i st = Some r ->
  exists ss, queue (snd r) = queue st ++ [ss].
Proof.
  intros Hs H. pose proof (ever_linking_allows s Hs) as Ha.
  destruct Hs as (_ & _ & hook & Hh & Hmore).
  unfold scrape in H. destruct (web_loads (length (opens st)) url) as [page Hp].
  rewrite Hp in H.
  destruct (wait_ready config patience (ready (opts s) page)) as [k|]; [|discriminate].
  destruct (scrapePage s page (writer st) (log_msg ("Scraping " +:+ url) (log st)))
    as [w lg'].
  apply (inj Some) in H. rewrite <- H.
  destruct (Hmore page) as (more & Hm & Hne).
  unfold complete. rewrite Hh, Hm, Ha.
  destruct more as [|u more]; [contradiction|]. simpl. eexists. reflexivity.
Qed.

Lemma run_urls_spawns patience (s : Suite Page) us i st st' :
  ever_linking s -> us <> [] ->
  run_urls web config patience s us i st = Some st' ->
  exists extra, extra <> [] /\ queue st' = queue st ++ extra /\ Forall (child_of s) extra.
Proof.
  intros Hs Hne H.
  destruct (run_urls_queue Page web config patience s us i st st' H) as (extra & Hq & Hc).
  exists extra. split; [|auto].
  destruct us as [|url rest]; [contradiction|]. simpl in H.
  destruct (scrape web config patience s url i st) as [[i1 st1]|] eqn:E; [|discriminate].
  destruct (scrape_spawns _ _ _ _ _ _ Hs E) as (ss & Hq1). simpl in Hq1.
  destruct (run_urls_queue Page web config patience s rest i1 st1 st' H) as (e2 & Hq2 & _).
  rewrite Hq1, <- app_assoc in Hq2. rewrite Hq in Hq2.
  apply app_inv_head in Hq2. subst extra. discriminate.
Qed.

Lemma step_keeps_linking patience (st st' : State Page) :
  Forall ever_linking (queue st) ->
  step web config patience st = Some st' ->
  queue st' <> [] /\ Forall ever_linking (queue st').
Proof.
  intros Hall H. unfold step, run_suite in H.
  destruct (queue st) as [|s q] eqn:Eq; [discriminate|].
  apply Forall_cons in Hall as [Hs Hq].
  destruct Hs as (Hu & Hrest).
  destruct (run_urls_spawns _ _ _ _ _ _ (conj Hu Hrest) Hu H) as (extra & Hne & Hq' & Hc).
  simpl in Hq'. rewrite Hq'. split.
  - intros Hnil. apply app_eq_nil in Hnil as [_ Hnil]. contradiction.
  - apply Forall_app. split; [exact Hq|].
    eapply Forall_impl; [exact Hc|]. intros ss. apply child_ever_linking. exact (conj Hu Hrest).
Qed.

(** X17. A crawl in which every page loads and every queued suite keeps
    finding links (a hook that returns a non-empty array on every page)
    under no effective [maxDepth] (unset or 0) never comes to an end,
    even when the links found were all visited before: every suite run
    leaves a sub-suite on the queue, so the queue is never empty and
    [writer.finish()] is never reached, whatever the number of suites
    run. *)
Theorem unbounded_crawl_never_ends (fuel patience : nat) (st : State Page) :
  queue st <> [] ->
  Forall ever_linking (queue st) ->
  run_queue web config fuel patience st = None.
Proof.
  revert st. induction fuel as [|n IH]; intros st Hne Hall; simpl.
  - now destruct (queue st).
  - destruct (queue st) as [|s q] eqn:Eq; [contradiction|].
    destruct (step web config patience st) as [st1|] eqn:Es; [|reflexivity].
    rewrite <- Eq in Hall.
    destruct (step_keeps_linking patience st st1 Hall Es) as [Hne1 Hall1].
    now apply IH.
Qed.

End Endless.

Lemma unbounded_crawl_never_ends_witness :
  (forall (n : nat) (url : string), exists page, url_pages n url = Some page) /\
  Runner.queue (Runner.init None self_linking) <> [] /\
  Forall ever_linking (Runner.queue (Runner.init None self_linking)) /\
  Runner.run_queue url_pages Runner.default_config 50 3 (Runner.init None self_linking) = None.
Proof.
  assert (Hweb : forall (n : nat) (url : string), exists page, url_pages n url = Some page)
    by (intros n url; now exists url).
  assert (Hne : Runner.queue (Runner.init None self_linking) <> []) by discriminate.
  assert (Hall : Forall ever_linking (Runner.queue (Runner.init None self_linking))).
  { constructor; [|constructor]. split; [discriminate|]. split; [now left|].
    eexists. split; [reflexivity|]. intros p. eexists. split; [reflexivity|discriminate]. }
  split; [exact Hweb|]. split; [exact Hne|]. split; [exact Hall|].
  exact (unbounded_crawl_never_ends string url_pages Runner.default_config Hweb 50 3
           (Runner.init None self_linking) Hne Hall).
Defined.

Lemma itemfile_add_saves_witness :
  truthy (JArr [JStr "a"; JStr "b"; JStr "c"]) = true /\
  exists w',
    ItemFile.add "out" (JArr [JStr "a"; JStr "b"; JStr "c"]) (ItemFile.create raw)
      = Returns w' /\
    exists news,
      ItemFile.saves w' = ItemFile.saves (ItemFile.create raw) ++ news /\
      length news = length (arrify (JArr [JStr "a"; JStr "b"; JStr "c"])) /\
      Forall (fun s => ItemFile.sv_path s = "out" /\
                       ItemFile.sv_mode s = ItemFile.Overwrite) news /\
      ItemFile.count w' =
        ItemFile.count (ItemFile.create raw) +
        length (arrify (JArr [JStr "a"; JStr "b"; JStr "c"])).
Proof.
  split; [reflexivity|].
  destruct (ItemFile.add "out" (JArr [JStr "a"; JStr "b"; JStr "c"]) (ItemFile.create raw))
    as [w'|] eqn:E; [|vm_compute in E; discriminate E].
  exists w'. split; [reflexivity|].
  exact (itemfile_add_saves "out" (JArr [JStr "a"; JStr "b"; JStr "c"])
           (ItemFile.create raw) w' eq_refl E).
Defined.

(** ** What [visited] is used for *)

Section Visited.
Import Runner.
Variable Page : Type.
Variable web : nat -> string -> option Page.
Variable config : Config.

Lemma forget_fields (a b : State Page) :
  forget_visited a = forget_visited b ->
  queue a = queue b /\ writer a = writer b /\ log a = log b /\ opens a = opens b /\
  scraped a = scraped b /\ started a = started b /\ exited a = exited b.
Proof. unfold forget_visited, set_visited. intros H. injection H. auto 10. Qed.

Lemma forget_eq (a b : State Page) :
  queue a = queue b -> writer a = writer b -> log a = log b -> opens a = opens b ->
  scraped a = scraped b -> started a = started b -> exited a = exited b ->
  forget_visited a = forget_visited b.
Proof. unfold forget_visited, set_visited. now intros -> -> -> -> -> -> ->. Qed.

Lemma complete_forgets (s : Suite Page) page i (a b : State Page) :
  forget_visited a = forget_visited b ->
  fst (complete s page i a) = fst (complete s page i b) /\
  forget_visited (snd (complete s page i a)) = forget_visited (snd (complete s page i b)).
Proof.
  intros H. pose proof (forget_fields a b H) as (Hq & Hw & Hl & Ho & Hs & Hst & He).
  unfold complete.
  destruct page as [p|]; [|auto].
  destruct (moreUrls (opts s)) as [hook|]; [|auto].
  destruct (hook p) as [more|]; [|auto].
  destruct (depth_allows s); [|auto].
  destruct (negb (length more =? 0)); [|auto].
  split; [reflexivity|]. apply forget_eq; simpl; congruence.
Qed.

Lemma scrape_forgets patience (s : Suite Page) url i (a b : State Page) :
  forget_visited a = forget_visited b ->
  match scrape web config patience s url i a, scrape web config patience s url i b with
  | Some ra, Some rb => fst ra = fst rb /\ forget_visited (snd ra) = forget_visited (snd rb)
  | None, None => True
  | _, _ => False
  end.
Proof.
  intros H. pose proof (forget_fields a b H) as (Hq & Hw & Hl & Ho & Hs & Hst & He).
  unfold scrape. rewrite Ho, Hw, Hl.
  destruct (web (length (opens b)) url) as [page|].
  - destruct (wait_ready config patience (ready (opts s) page)) as [k|]; [|exact I].
    destruct (scrapePage s page (writer b) (log_msg ("Scraping " +:+ url) (log b)))
      as [w lg'].
    apply complete_forgets. apply forget_eq; simpl; congruence.
  - apply complete_forgets. apply forget_eq; simpl; congruence.
Qed.

Lemma run_urls_forgets patience (s : Suite Page) us : forall i (a b : State Page),
  forget_visited a = forget_visited b ->
  forget_visited <$> run_urls web config patience s us i a =
  forget_visited <$> run_urls web config patience s us i b.
Proof.
  induction us as [|url rest IH]; intros i a b H; simpl.
  - apply (f_equal Some).
    pose proof (forget_fields a b H) as (Hq & Hw & Hl & Ho & Hs & Hst & He).
    apply forget_eq; simpl; congruence.
  - pose proof (scrape_forgets patience s url i a b H) as Hsc.
    destruct (scrape web config patience s url i a) as [[ia sa]|];
      destruct (scrape web config patience s url i b) as [[ib sb]|];
      try contradiction; [|reflexivity].
    destruct Hsc as [Hi Hf]. simpl in Hi, Hf. subst ib. now apply IH.
Qed.

Lemma step_forgets patience (a b : State Page) :
  forget_visited a = forget_visited b ->
  forget_visited <$> step web config patience a =
  forget_visited <$> step web config patience b.
Proof.
  intros H. pose proof (forget_fields a b H) as (Hq & Hw & Hl & Ho & Hs & Hst & He).
  unfold step, run_suite. rewrite Hq. destruct (queue b) as [|s q]; [reflexivity|].
  apply run_urls_forgets. apply forget_eq; simpl; congruence.
Qed.

(** X19. Nothing in a run depends on [visited]: two runs that start
    from states differing only in what [visited] holds open the same
    URLs, queue and start the same suites, log the same lines and write
    the same items, and end or fail to end together; the set is written
    to, and its one reading, in link discovery, has no effect. *)
Theorem visited_never_consulted (fuel patience : nat) (a b : State Page) :
  forget_visited a = forget_visited b ->
  forget_visited <$> run_queue web config fuel patience a =
  forget_visited <$> run_queue web config fuel patience b.
Proof.
  revert a b. induction fuel as [|n IH]; intros a b H;
    pose proof (forget_fields a b H) as (Hq & Hw & Hl & Ho & Hs & Hst & He); simpl.
  - rewrite Hq. destruct (queue b) eqn:Eq; [|reflexivity]. simpl. apply (f_equal Some).
    unfold finalize. rewrite Hw, Hl. destruct (Writer.finish (writer b) (log b)).
    apply forget_eq; simpl; congruence.
  - rewrite Hq. destruct (queue b) as [|s q] eqn:Eq.
    + simpl. apply (f_equal Some). unfold finalize. rewrite Hw, Hl.
      destruct (Writer.finish (writer b) (log b)). apply forget_eq; simpl; congruence.
    + pose proof (step_forgets patience a b H) as Hst'.
      destruct (step web config patience a) as [a1|];
        destruct (step web config patience b) as [b1|]; simpl in Hst';
        try discriminate; [|reflexivity].
      apply IH. now apply (inj Some) in Hst'.
Qed.

End Visited.

Lemma visited_never_consulted_witness :
  forget_visited (set_visited {[ "b" ]} (Runner.init None (crawl_from_a (Some 1)))) =
    forget_visited (Runner.init None (crawl_from_a (Some 1))) /\
  forget_visited <$> Runner.run_queue url_pages Runner.default_config 5 3
                       (set_visited {[ "b" ]} (Runner.init None (crawl_from_a (Some 1)))) =
  forget_visited <$> Runner.run_queue url_pages Runner.default_config 5 3
                       (Runner.init None (crawl_from_a (Some 1))).
Proof.
  split; [reflexivity|].
  apply (visited_never_consulted string url_pages Runner.default_config 5 3). reflexivity.
Defined.

(** ** Pages that are not scrapable *)

Section Unscrapable.
Import Runner.
Variable Page : Type.
Variable web : nat -> string -> option Page.
Variable config : Config.

(** X20. A page that loads but whose [scrapable] test is false gives the
    writer nothing, yet is handled like any loaded page otherwise: its
    URL is put in [visited], and link discovery runs on it, so a
    non-empty hook result (under a passing depth test) still puts a
    sub-suite with those URLs, one level deeper, on the queue. *)
Theorem unscrapable_page_still_crawled patience (s : Suite Page) url i st page r :
  web (length (opens st)) url = Some page ->
  scrapable (opts s) page = false ->
  scrape web config patience s url i st = Some r ->
  writer (snd r) = writer st /\
  url ∈ visited (snd r) /\
  (forall hook more,
     moreUrls (opts s) = Some hook -> hook page = Some more -> more <> [] ->
     depth_allows s = true ->
     exists ss, queue (snd r) = queue st ++ [ss] /\
                urls ss = more /\ depth ss = depth s + 1).
Proof.
  intros Hweb Hsc H. unfold scrape in H. rewrite Hweb in H.
  destruct (wait_ready config patience (ready (opts s) page)) as [k|]; [|discriminate].
  unfold scrapePage in H. rewrite Hsc in H. apply (inj Some) in H. rewrite <- H.
  match goal with |- context [complete s (Some page) i ?x] =>
    destruct (complete_frame Page s (Some page) i x) as (Hv & Hw & _) end.
  rewrite Hv, Hw. simpl. split; [reflexivity|]. split; [set_solver|].
  intros hook more Hh Hm Hne Ha. unfold complete. rewrite Hh, Hm, Ha.
  destruct more as [|u more]; [contradiction|]. simpl.
  eexists. split; [reflexivity|]. split; reflexivity.
Qed.

End Unscrapable.

Lemma unscrapable_page_still_crawled_witness :
  url_pages (length (Runner.opens (Runner.init None (crawl_from_a None)))) "a" = Some "a" /\
  Runner.scrapable (Runner.opts unscrapable_suite) "a" = false /\
  exists r,
    Runner.scrape url_pages Runner.default_config 3 unscrapable_suite "a" 0
      (Runner.init None (crawl_from_a None)) = Some r /\
    Runner.writer (snd r) = Runner.writer (Runner.init None (crawl_from_a None)).
Proof.
  split; [reflexivity|]. split; [reflexivity|].
  destruct (Runner.scrape url_pages Runner.default_config 3 unscrapable_suite "a" 0
              (Runner.init None (crawl_from_a None))) as [r|] eqn:E;
    [|vm_compute in E; discriminate E].
  exists r. split; [reflexivity|].
  exact (proj1 (unscrapable_page_still_crawled string url_pages Runner.default_config 3
                  unscrapable_suite "a" 0 (Runner.init None (crawl_from_a None)) "a" r
                  eq_refl eq_refl E)).
Defined.
